(** * Account-balance maintenance of my-wealth-atlas

    A shallow embedding of the PostgreSQL schema of the finance tracker
    (tables [accounts], [categories], [transactions], the row trigger
    [update_account_balance]) and of the Dashboard summary computed by the
    React front end, together with the properties of the running balance.

    Conventions.
    - A [DECIMAL(15,2)] value is an integer number of hundredths (cents);
      such a column holds the values of absolute value below [10^15] cents
      and an assignment outside that range raises
      [numeric_value_out_of_range]. The column also holds [NaN], which
      no number gives rise to: the first parts describe the database on
      numbers, the part [WithNaN] with [NaN] besides them, and
      [statement_embed] and its companions relate the two.
    - A JavaScript number is a binary64 floating-point number.
    - A [UUID] is a number.
    - A table with a primary key [id] is a finite map from [id] to the
      remaining columns of the row.
    - A statement returns the new database or the SQL error that aborts
      it; an aborted statement leaves the database as it was. *)

From stdpp Require Import gmap strings list fin_maps sorting.
From Stdlib Require Import ZArith Lia Floats Uint63.

Local Open Scope Z_scope.

Abbreviation uuid := N (only parsing).

(** ** SQL errors and the result of a statement *)

Inductive sqlerror : Type :=
  | not_null_violation
  | unique_violation
  | foreign_key_violation
  | invalid_text_representation
  | numeric_value_out_of_range.

Inductive result (A : Type) : Type :=
  | OK (a : A)
  | Err (e : sqlerror).
Arguments OK {A} a.
Arguments Err {A} e.

#[export] Instance result_ret : MRet result := @OK.
#[export] Instance result_bind : MBind result := λ A B f m,
  match m with
  | OK a => f a
  | Err e => Err e
  end.

Definition is_OK {A} (r : result A) : Prop :=
  match r with OK _ => True | Err _ => False end.

(** ** Column types *)

(** [CREATE TYPE public.transaction_type AS ENUM ('income', 'expense')] *)
Inductive transaction_type : Type := income | expense.

#[export] Instance transaction_type_eq_dec : EqDecision transaction_type.
Proof. solve_decision. Defined.

(** Input function of the enum: a text value that is not a label of the
    enum is refused. *)
Definition transaction_type_in (s : string) : result transaction_type :=
  if decide (s = "income") then OK income
  else if decide (s = "expense") then OK expense
  else Err invalid_text_representation.

(** Largest magnitude of a [DECIMAL(15,2)], in cents. *)
Definition numeric_15_2_max : Z := 10 ^ 15 - 1.

Definition in_numeric_15_2 (v : Z) : Prop := Z.abs v ≤ numeric_15_2_max.

(** Assignment to a [DECIMAL(15,2)] column. *)
Definition numeric_15_2 (v : Z) : result Z :=
  if decide (in_numeric_15_2 v) then OK v else Err numeric_value_out_of_range.

(** Assignment to a [DECIMAL(15,2) NOT NULL] column. *)
Definition numeric_15_2_not_null (v : option Z) : result Z :=
  match v with
  | None => Err not_null_violation
  | Some v => numeric_15_2 v
  end.

(** ** Tables *)

(** [public.accounts] (columns [description] and [updated_at] carry no
    behaviour and are left out). *)
Record account : Type := {
  a_user_id : uuid;
  a_name : string;
  a_currency : string;
  initial_balance : Z;
  current_balance : Z;
  a_created_at : Z
}.

(** [public.categories] *)
Record category : Type := {
  c_user_id : uuid;
  c_name : string;
  c_transaction_type : transaction_type
}.

(** [public.transactions] (columns [description], [created_at] and
    [updated_at] are left out; [date] is a day number). *)
Record transaction : Type := {
  t_user_id : uuid;
  account_id : uuid;
  category_id : option uuid;
  type : transaction_type;
  amount : Z;
  date : Z
}.

Record database : Type := {
  accounts : gmap N account;
  categories : gmap N category;
  transactions : gmap N transaction
}.

Definition empty_database : database :=
  {| accounts := ∅; categories := ∅; transactions := ∅ |}.

(** ** The trigger function [update_account_balance] *)

(** Signed contribution of a transaction: [+amount] for income,
    [-amount] for expense. *)
Definition signed (ty : transaction_type) (m : Z) : Z :=
  match ty with
  | income => m
  | expense => - m
  end.

(** [CASE WHEN ty = 'income' THEN m WHEN ty = 'expense' THEN -m END];
    a [CASE] without [ELSE] is [NULL] when no branch applies. *)
Definition case_type (ty : transaction_type) (m : Z) : option Z :=
  if decide (ty = income) then Some m
  else if decide (ty = expense) then Some (- m)
  else None.

Definition set_current_balance (v : Z) (r : account) : account :=
  {| a_user_id := a_user_id r; a_name := a_name r;
     a_currency := a_currency r; initial_balance := initial_balance r;
     current_balance := v; a_created_at := a_created_at r |}.

(** [UPDATE public.accounts SET current_balance = e WHERE id = aid],
    where [e] is computed from the row's current balance and may be
    [NULL]. No row with that id: nothing is updated. *)
Definition update_accounts (e : Z → option Z) (aid : uuid)
    (accs : gmap N account) : result (gmap N account) :=
  match accs !! aid with
  | None => OK accs
  | Some r =>
    v ← numeric_15_2_not_null (e (current_balance r));
    OK (<[aid := set_current_balance v r]> accs)
  end.

(** [TG_OP] together with the row images it comes with. *)
Inductive trigger_event : Type :=
  | TG_INSERT (NEW : transaction)
  | TG_UPDATE (OLD NEW : transaction)
  | TG_DELETE (OLD : transaction).

Definition update_account_balance (ev : trigger_event)
    (accs : gmap N account) : result (gmap N account) :=
  match ev with
  | TG_INSERT NEW =>
    update_accounts
      (λ b, Z.add b <$> case_type (type NEW) (amount NEW))
      (account_id NEW) accs
  | TG_UPDATE OLD NEW =>
    accs1 ← update_accounts
      (λ b, Z.sub b <$> case_type (type OLD) (amount OLD))
      (account_id OLD) accs;
    update_accounts
      (λ b, Z.add b <$> case_type (type NEW) (amount NEW))
      (account_id NEW) accs1
  | TG_DELETE OLD =>
    update_accounts
      (λ b, Z.sub b <$> case_type (type OLD) (amount OLD))
      (account_id OLD) accs
  end.

(** The row trigger fired once for each row of a statement, in turn. *)
Fixpoint update_account_balance_trigger (evs : list trigger_event)
    (accs : gmap N account) : result (gmap N account) :=
  match evs with
  | [] => OK accs
  | ev :: evs =>
    accs1 ← update_account_balance ev accs;
    update_account_balance_trigger evs accs1
  end.

(** ** Statements on [transactions] *)

(** The values a client sends for a transaction row: the type as text,
    the amount as the number of cents it rounds to, or [None] for a JSON
    [null] (what [parseFloat] yields on a non-number, once serialised). *)
Record transaction_values : Type := {
  v_user_id : uuid;
  v_account_id : uuid;
  v_category_id : option uuid;
  v_type : string;
  v_amount : option Z;
  v_date : Z
}.

(** The row a statement builds from the client's values, once the type
    and the amount are converted to their column types. *)
Definition row (v : transaction_values) (ty : transaction_type) (m : Z)
    : transaction :=
  {| t_user_id := v_user_id v; account_id := v_account_id v;
     category_id := v_category_id v; type := ty; amount := m;
     date := v_date v |}.

(** Check of a foreign key against the referenced table. *)
Definition references {A} (tbl : gmap N A) (k : uuid) : result unit :=
  match tbl !! k with
  | Some _ => OK ()
  | None => Err foreign_key_violation
  end.

Definition references_opt {A} (tbl : gmap N A) (k : option uuid)
    : result unit :=
  match k with
  | None => OK ()
  | Some k => references tbl k
  end.

(** [INSERT INTO transactions (id, ...) VALUES (...)] *)
Definition insert_transaction (id : uuid) (v : transaction_values)
    (s : database) : result database :=
  ty ← transaction_type_in (v_type v);
  m ← numeric_15_2_not_null (v_amount v);
  match transactions s !! id with
  | Some _ => Err unique_violation
  | None =>
    let NEW := row v ty m in
    _ ← references (accounts s) (account_id NEW);
    _ ← references_opt (categories s) (category_id NEW);
    accs ← update_account_balance (TG_INSERT NEW) (accounts s);
    OK {| accounts := accs; categories := categories s;
          transactions := <[id := NEW]> (transactions s) |}
  end.

(** [UPDATE transactions SET ... WHERE id = id], the new values taken
    from the JSON body of the request: they are converted to the types
    of their columns for the row that is updated, so a statement that
    matches no row completes with nothing done, whatever the values. A
    foreign key is checked again only when its column changes. *)
Definition update_transaction (id : uuid) (v : transaction_values)
    (s : database) : result database :=
  match transactions s !! id with
  | None => OK s
  | Some OLD =>
    ty ← transaction_type_in (v_type v);
    m ← numeric_15_2_not_null (v_amount v);
    let NEW := row v ty m in
    _ ← (if decide (account_id NEW = account_id OLD) then OK ()
         else references (accounts s) (account_id NEW));
    _ ← (if decide (category_id NEW = category_id OLD) then OK ()
         else references_opt (categories s) (category_id NEW));
    accs ← update_account_balance (TG_UPDATE OLD NEW) (accounts s);
    OK {| accounts := accs; categories := categories s;
          transactions := <[id := NEW]> (transactions s) |}
  end.

(** [DELETE FROM transactions WHERE id = id] *)
Definition delete_transaction (id : uuid) (s : database) : result database :=
  match transactions s !! id with
  | None => OK s
  | Some OLD =>
    accs ← update_account_balance (TG_DELETE OLD) (accounts s);
    OK {| accounts := accs; categories := categories s;
          transactions := delete id (transactions s) |}
  end.

(** ** Statements on [accounts] and [categories] *)

(** [AccountsManager.handleAddAccount]: both balances are set to
    [parseFloat(initialBalance) || 0]. *)
Definition handleAddAccount (id user : uuid) (name currency : string)
    (initialBalance : option Z) (now : Z) (s : database) : result database :=
  ib ← numeric_15_2 (default 0 initialBalance);
  cb ← numeric_15_2 (default 0 initialBalance);
  match accounts s !! id with
  | Some _ => Err unique_violation
  | None =>
    OK {| accounts :=
            <[id := {| a_user_id := user; a_name := name;
                       a_currency := currency; initial_balance := ib;
                       current_balance := cb; a_created_at := now |}]>
              (accounts s);
          categories := categories s;
          transactions := transactions s |}
  end.

(** [DELETE FROM accounts WHERE id = aid]. The foreign key
    [transactions.account_id ... ON DELETE CASCADE] deletes the
    referencing transactions once the account row is gone, and the row
    trigger fires for each of them. *)
Definition delete_account (aid : uuid) (s : database) : result database :=
  match accounts s !! aid with
  | None => OK s
  | Some _ =>
    let cascaded := filter (λ kt, account_id kt.2 = aid) (transactions s) in
    accs ← update_account_balance_trigger
             (TG_DELETE <$> (map_to_list cascaded).*2)
             (delete aid (accounts s));
    OK {| accounts := accs; categories := categories s;
          transactions :=
            filter (λ kt, account_id kt.2 ≠ aid) (transactions s) |}
  end.

(** [CategoryManager.handleSubmit], creation branch:
    [INSERT INTO categories (id, user_id, name, transaction_type)]. *)
Definition insert_category (id user : uuid) (name : string)
    (ty : transaction_type) (s : database) : result database :=
  match categories s !! id with
  | Some _ => Err unique_violation
  | None =>
    OK {| accounts := accounts s;
          categories :=
            <[id := {| c_user_id := user; c_name := name;
                       c_transaction_type := ty |}]> (categories s);
          transactions := transactions s |}
  end.

Definition set_category_id (c : option uuid) (t : transaction) : transaction :=
  {| t_user_id := t_user_id t; account_id := account_id t;
     category_id := c; type := type t; amount := amount t; date := date t |}.

(** What [ON DELETE SET NULL] does to one row of [transactions]. *)
Definition set_null (cid : uuid) (t : transaction) : transaction :=
  if decide (category_id t = Some cid) then set_category_id None t else t.

(** [DELETE FROM categories WHERE id = cid]. The foreign key
    [transactions.category_id ... ON DELETE SET NULL] updates the
    referencing transactions, and the row trigger fires for each of
    these updates. *)
Definition delete_category (cid : uuid) (s : database) : result database :=
  match categories s !! cid with
  | None => OK s
  | Some _ =>
    let referencing :=
      filter (λ kt, category_id kt.2 = Some cid) (transactions s) in
    accs ← update_account_balance_trigger
             ((λ t, TG_UPDATE t (set_null cid t)) <$>
                (map_to_list referencing).*2)
             (accounts s);
    OK {| accounts := accs; categories := delete cid (categories s);
          transactions := set_null cid <$> transactions s |}
  end.

(** The database after an attempted statement: an error rolls back. *)
Definition commit (s : database) (r : result database) : database :=
  match r with
  | OK s' => s'
  | Err _ => s
  end.

(** ** Balances *)

Definition balance_of (a : uuid) (s : database) : option Z :=
  current_balance <$> accounts s !! a.

Definition sum_map {A} (f : A → Z) (m : gmap N A) : Z :=
  map_fold (λ _ x acc, f x + acc) 0 m.

(** Contribution of a transaction to the balance of account [a]. *)
Definition contribution (a : uuid) (t : transaction) : Z :=
  if decide (account_id t = a) then signed (type t) (amount t) else 0.

(** Σ signed amount of every transaction currently referencing [a]. *)
Definition signed_sum (a : uuid) (s : database) : Z :=
  sum_map (contribution a) (transactions s).

(** Sum of [current_balance] over all accounts. *)
Definition total_balance (s : database) : Z :=
  sum_map current_balance (accounts s).

(** [current_balance = initial_balance + Σ signed], for every account. *)
Definition balance_invariant (s : database) : Prop :=
  map_Forall
    (λ a r, current_balance r = initial_balance r + signed_sum a s)
    (accounts s).

(** Every stored balance is a value of its column type. *)
Definition balances_in_range (s : database) : Prop :=
  map_Forall (λ _ r, in_numeric_15_2 (current_balance r)) (accounts s).

(** ** Effect of the trigger, as a shift of balances *)

(** [current_balance := current_balance + d] on one row. *)
Definition adjust (d : Z) (r : account) : account :=
  set_current_balance (current_balance r + d) r.

(** Net amount the trigger adds to the balance of account [a]. *)
Definition delta (ev : trigger_event) (a : uuid) : Z :=
  match ev with
  | TG_INSERT NEW => contribution a NEW
  | TG_UPDATE OLD NEW => contribution a NEW - contribution a OLD
  | TG_DELETE OLD => - contribution a OLD
  end.

(** Net amount a sequence of firings adds to the balance of [a]. *)
Definition delta_all (evs : list trigger_event) (a : uuid) : Z :=
  foldr (λ ev acc, delta ev a + acc) 0 evs.

(** ** Sequences of transaction operations *)

Inductive operation : Type :=
  | Create (id : uuid) (v : transaction_values)
  | Update (id : uuid) (v : transaction_values)
  | Delete (id : uuid).

Definition statement (op : operation) (s : database) : result database :=
  match op with
  | Create id v => insert_transaction id v s
  | Update id v => update_transaction id v s
  | Delete id => delete_transaction id s
  end.

(** The database after each operation of a sequence, in turn. *)
Fixpoint history (ops : list operation) (s : database) : list database :=
  match ops with
  | [] => []
  | op :: ops =>
    let s' := commit s (statement op s) in
    s' :: history ops s'
  end.

(** ** The Dashboard summary

    A JavaScript number is a binary64 floating-point number, here a
    primitive [float]; [calculateTotals] adds such numbers, with their
    rounding. Rows of equal sort key come in the order the sort leaves
    them in; nothing below depends on that order. What the cards print
    of the totals ([toFixed(2)]) is rendering and is left out. *)

(** Rows of a table that the row-level policy
    [USING (auth.uid() = user_id)] shows to the user [uid]. *)
Definition visible {A} (owner : A → uuid) (uid : uuid) (tbl : gmap N A)
    : list (uuid * A) :=
  filter (λ kr, owner kr.2 = uid) (map_to_list tbl).

(** [.order('created_at', { ascending: true })] *)
Definition created_at_ascending (x y : uuid * account) : Prop :=
  a_created_at x.2 ≤ a_created_at y.2.

(** [.order('date', { ascending: false })] *)
Definition date_descending (x y : uuid * transaction) : Prop :=
  date y.2 ≤ date x.2.

#[export] Instance created_at_ascending_dec x y :
  Decision (created_at_ascending x y).
Proof. unfold created_at_ascending. apply _. Defined.

#[export] Instance date_descending_dec x y : Decision (date_descending x y).
Proof. unfold date_descending. apply _. Defined.

(** The user's transactions, most recent date first. *)
Definition transactions_by_date (uid : uuid) (s : database)
    : list (uuid * transaction) :=
  merge_sort date_descending (visible t_user_id uid (transactions s)).

(** [Dashboard.fetchData]: the user's accounts, and the first 50 of the
    user's transactions by decreasing date. *)
Definition fetchData (uid : uuid) (s : database)
    : list (uuid * account) * list (uuid * transaction) :=
  (merge_sort created_at_ascending (visible a_user_id uid (accounts s)),
   take 50 (transactions_by_date uid s)).

(** The user's transactions that [fetchData] leaves behind. *)
Definition not_fetched (uid : uuid) (s : database)
    : list (uuid * transaction) :=
  drop 50 (transactions_by_date uid s).

(** The number JavaScript makes of a decimal of the database, [Number(x)]
    and the parsing of a JSON number alike: the double nearest to
    [cents / 100]. The integer [cents] of a [DECIMAL(15,2)] is below
    [2^53] in magnitude and is a double itself, and the division of two
    doubles is rounded to nearest. *)
Definition Number (cents : Z) : float :=
  if decide (cents < 0)
  then PrimFloat.opp
         (PrimFloat.div (PrimFloat.of_uint63 (Uint63.of_Z (- cents)))
            100%float)
  else PrimFloat.div (PrimFloat.of_uint63 (Uint63.of_Z cents)) 100%float.

Record totals : Type := {
  totalIncome : float;
  totalExpenses : float;
  totalBalance : float
}.

(** [x || 0] on a number: [0], [-0] and [NaN] are falsy. *)
Definition or_zero (x : float) : float :=
  if PrimFloat.eqb x 0%float || PrimFloat.is_nan x then 0%float else x.

(** [Dashboard.calculateTotals]; [selectedAccount] is [None] for
    ['all']. *)
Definition calculateTotals (accounts : list (uuid * account))
    (transactions : list (uuid * transaction))
    (selectedAccount : option uuid) : totals :=
  let filteredTransactions :=
    match selectedAccount with
    | None => transactions
    | Some a => filter (λ t, account_id t.2 = a) transactions
    end in
  {| totalIncome :=
       foldl (λ sum t, PrimFloat.add sum (Number (amount t.2))) 0%float
         (filter (λ t, type t.2 = income) filteredTransactions);
     totalExpenses :=
       foldl (λ sum t, PrimFloat.add sum (Number (amount t.2))) 0%float
         (filter (λ t, type t.2 = expense) filteredTransactions);
     totalBalance :=
       match selectedAccount with
       | None =>
         foldl (λ sum acc, PrimFloat.add sum (Number (current_balance acc.2)))
           0%float accounts
       | Some a =>
         match find (λ acc, bool_decide (acc.1 = a)) accounts with
         | Some acc => or_zero (Number (current_balance acc.2))
         | None => 0%float
         end
       end |}.

(** The rows the summary is restricted to by the account filter. *)
Definition selected_rows (selectedAccount : option uuid)
    (l : list (uuid * transaction)) : list (uuid * transaction) :=
  match selectedAccount with
  | None => l
  | Some a => filter (λ t, account_id t.2 = a) l
  end.


(** The amounts, in cents, of the transactions of type [ty] in a list,
    in the order of the list. *)
Definition amounts_of_type (ty : transaction_type)
    (l : list (uuid * transaction)) : list Z :=
  (λ t, amount t.2) <$> filter (λ t, type t.2 = ty) l.

(** The doubles of a list of decimals added up from [0], left to
    right. *)
Definition sum_of_doubles (l : list Z) : float :=
  foldl (λ sum x, PrimFloat.add sum (Number x)) 0%float l.

(** ** The scenario of the specification *)

Module Scenario.
Definition A : uuid := 1%N.
Definition B : uuid := 2%N.
Definition t1 : uuid := 11%N.
Definition t2 : uuid := 12%N.
Definition user : uuid := 7%N.

Definition C : uuid := 5%N.

Definition values_in (a : uuid) (c : option uuid) (ty : string) (cents : Z)
    : transaction_values :=
  {| v_user_id := user; v_account_id := a; v_category_id := c;
     v_type := ty; v_amount := Some cents; v_date := 0 |}.

Definition values (a : uuid) (ty : string) (cents : Z) : transaction_values :=
  values_in a None ty cents.

(** Account [A] with [initial_balance = 100.00] and no transactions. *)
Definition s0 : database :=
  commit empty_database
    (handleAddAccount A user "A" "USD" (Some 10000) 0 empty_database).
Definition r1 := insert_transaction t1 (values A "income" 5000) s0.
Definition s1 := commit s0 r1.
Definition r2 := insert_transaction t2 (values A "expense" 3000) s1.
Definition s2 := commit s1 r2.
Definition r3 := update_transaction t1 (values A "income" 8000) s2.
Definition s3 := commit s2 r3.
Definition r4 := delete_transaction t2 s3.
Definition s4 := commit s3 r4.

(** The row of [t1] as created. *)
Definition row1 : transaction := row (values A "income" 5000) income 5000.

(** A second account [B], next to [A] holding [t1]; then [t1] moved
    to [B]. *)
Definition sAB : database :=
  commit s1 (handleAddAccount B user "B" "USD" (Some 2000) 1 s1).
Definition sBA : database :=
  commit sAB (update_transaction t1 (values B "income" 5000) sAB).

(** A category [C], an expense of account [A] filed under it, and the
    category deleted. *)
Definition sC : database :=
  commit s1 (insert_category C user "Food" expense s1).
Definition sCt : database :=
  commit sC (insert_transaction t2 (values_in A (Some C) "expense" 3000) sC).
Definition sCd : database := commit sCt (delete_category C sCt).

(** A creation with a negative amount. *)
Definition t3 : uuid := 13%N.
Definition negative : transaction_values := values A "income" (-500).
Definition sN : database := commit s0 (insert_transaction t3 negative s0).

(** Fifty-one incomes of [1.00] on account [A], on the days 1 to 51. *)
Definition dated (i : nat) : transaction_values :=
  {| v_user_id := user; v_account_id := A; v_category_id := None;
     v_type := "income"; v_amount := Some 100; v_date := Z.of_nat i |}.
Definition many : database :=
  foldl (λ s i, commit s (insert_transaction (100 + N.of_nat i) (dated i) s))
    s0 (seq 1 51).

(** An account opened at the largest balance of the column, an expense
    [t1] and an income [t2] of [10.00] each, and the amount of [t1]
    raised to [20.00]. *)
Definition top : database :=
  commit empty_database
    (handleAddAccount A user "A" "USD" (Some numeric_15_2_max) 0
       empty_database).
Definition top1 : database :=
  commit top (insert_transaction t1 (values A "expense" 1000) top).
Definition top2 : database :=
  commit top1 (insert_transaction t2 (values A "income" 1000) top1).

(** Ten incomes and ten expenses of [9999999999999.99] in turn, on an
    account opened with [0.00]. *)
Definition opened : database :=
  commit empty_database
    (handleAddAccount A user "A" "USD" (Some 0) 0 empty_database).
Definition in_turn (i : nat) : transaction_values :=
  {| v_user_id := user; v_account_id := A; v_category_id := None;
     v_type := if Nat.odd i then "income" else "expense";
     v_amount := Some numeric_15_2_max; v_date := Z.of_nat i |}.
Definition twenty : database :=
  foldl (λ s i, commit s
                  (insert_transaction (100 + N.of_nat i) (in_turn i) s))
    opened (seq 1 20).
End Scenario.


(** ** Labels of the enum *)

(** The text a client sends for a type (the form keeps the type as one of
    the strings ['income'] and ['expense']). *)
Definition transaction_type_out (ty : transaction_type) : string :=
  match ty with
  | income => "income"
  | expense => "expense"
  end.

(** ** All the statements the application issues *)

Inductive db_operation : Type :=
  | OnTransaction (op : operation)
  | AddAccount (id user : uuid) (name currency : string)
      (initialBalance : option Z) (now : Z)
  | DeleteAccount (aid : uuid)
  | AddCategory (id user : uuid) (name : string) (ty : transaction_type)
  | DeleteCategory (cid : uuid).

Definition run (op : db_operation) (s : database) : result database :=
  match op with
  | OnTransaction op => statement op s
  | AddAccount id user name currency initialBalance now =>
    handleAddAccount id user name currency initialBalance now s
  | DeleteAccount aid => delete_account aid s
  | AddCategory id user name ty => insert_category id user name ty s
  | DeleteCategory cid => delete_category cid s
  end.

(** The database after a sequence of statements, each one committed or
    rolled back. *)
Fixpoint run_all (ops : list db_operation) (s : database) : database :=
  match ops with
  | [] => s
  | op :: ops => run_all ops (commit s (run op s))
  end.

(** ** Well-formed databases *)

(** The two foreign keys of [transactions]. *)
Definition referential_integrity (s : database) : Prop :=
  map_Forall
    (λ _ t, is_Some (accounts s !! account_id t)
            ∧ ∀ c, category_id t = Some c → is_Some (categories s !! c))
    (transactions s).

Definition accounts_in_range (accs : gmap N account) : Prop :=
  map_Forall
    (λ _ r, in_numeric_15_2 (initial_balance r)
            ∧ in_numeric_15_2 (current_balance r))
    accs.

(** Every stored [DECIMAL(15,2)] is a value of the type. *)
Definition columns_in_range (s : database) : Prop :=
  accounts_in_range (accounts s)
  ∧ map_Forall (λ _ t, in_numeric_15_2 (amount t)) (transactions s).

Definition well_formed (s : database) : Prop :=
  balance_invariant s ∧ referential_integrity s ∧ columns_in_range s.

(** ** Statements under row-level security

    A statement of the session of user [uid] either runs, or is refused
    because a new row fails the policy of its table. The policies of
    [transactions] are [WITH CHECK (auth.uid() = user_id)] for [INSERT]
    and [USING (auth.uid() = user_id)] for [UPDATE] and [DELETE]; the
    checks of the foreign keys and the trigger function
    ([SECURITY DEFINER]) are not subject to them. *)

Inductive session_result (A : Type) : Type :=
  | Executed (r : result A)
  | insufficient_privilege.
Arguments Executed {A} r.
Arguments insufficient_privilege {A}.

(** Conversion of the amount a client sends to the type of the column;
    [NULL] converts to [NULL]. *)
Definition amount_cast (m : option Z) : result unit :=
  match m with
  | None => OK ()
  | Some m => _ ← numeric_15_2 m; OK ()
  end.

(** [INSERT]: the values are converted, the new row is checked against
    the policy, then the statement runs. *)
Definition insert_transaction_as (uid id : uuid) (v : transaction_values)
    (s : database) : session_result database :=
  match (_ ← transaction_type_in (v_type v); amount_cast (v_amount v)) with
  | Err e => Executed (Err e)
  | OK _ =>
    if decide (v_user_id v = uid) then Executed (insert_transaction id v s)
    else insufficient_privilege
  end.

(** [UPDATE]: a row the policy hides is not updated; the values are
    converted for a visible row, and its new image is checked against
    the policy. *)
Definition update_transaction_as (uid id : uuid) (v : transaction_values)
    (s : database) : session_result database :=
  match transactions s !! id with
  | None => Executed (OK s)
  | Some OLD =>
    if decide (t_user_id OLD = uid) then
      match (_ ← transaction_type_in (v_type v);
             amount_cast (v_amount v)) with
      | Err e => Executed (Err e)
      | OK _ =>
        if decide (v_user_id v = uid)
        then Executed (update_transaction id v s)
        else insufficient_privilege
      end
    else Executed (OK s)
  end.

(** [DELETE]: a row the policy hides is not deleted. *)
Definition delete_transaction_as (uid id : uuid) (s : database)
    : result database :=
  match transactions s !! id with
  | None => OK s
  | Some OLD =>
    if decide (t_user_id OLD = uid) then delete_transaction id s else OK s
  end.

(** ** The form [AddTransactionForm] *)

(** The state [formData]; an empty [accountId] or [categoryId] is
    [None], [amount] is what [parseFloat] makes of the text of the field
    ([None] for a non-number). *)
Record formData : Type := {
  f_accountId : option uuid;
  f_categoryId : option uuid;
  f_amount : option Z;
  f_date : Z
}.

Inductive toast : Type :=
  | Transaction_added
  | Transaction_deleted
  | Error.

(** The request of [handleSubmit]. An empty [account_id] is no [UUID]. *)
Definition submit (uid id : uuid) (ty : transaction_type) (fd : formData)
    (s : database) : session_result database :=
  match f_accountId fd with
  | None => Executed (Err invalid_text_representation)
  | Some a =>
    insert_transaction_as uid id
      {| v_user_id := uid; v_account_id := a;
         v_category_id := f_categoryId fd;
         v_type := transaction_type_out ty;
         v_amount := f_amount fd; v_date := f_date fd |} s
  end.

(** [AddTransactionForm.handleSubmit]: nothing without a signed-in user;
    on success the form is reset (the type tab stays), on error it is
    kept. [id] is the identifier the database generates for the row. *)
Definition handleSubmit (user selectedAccountId : option uuid) (today : Z)
    (id : uuid) (ty : transaction_type) (fd : formData) (s : database)
    : formData * database * option toast :=
  match user with
  | None => (fd, s, None)
  | Some uid =>
    match submit uid id ty fd s with
    | Executed (OK s') =>
      ({| f_accountId := selectedAccountId; f_categoryId := None;
          f_amount := None; f_date := today |}, s', Some Transaction_added)
    | _ => (fd, s, Some Error)
    end
  end.

(** [TransactionsList.handleDelete], once confirmed. *)
Definition handleDelete (uid transactionId : uuid) (s : database)
    : database * toast :=
  match delete_transaction_as uid transactionId s with
  | OK s' => (s', Transaction_deleted)
  | Err _ => (s, Error)
  end.

(** ** The list of [TransactionsList] *)


(** ** Signing in by user name *)

(** The address [signUp] and [signIn] derive from a user name:
    [`${username}.user@example.com`]. *)
Definition fakeEmail (username : string) : string :=
  username +:+ ".user@example.com".

(** ** Further cases *)

Module Cases.
Definition alice : uuid := 7%N.
Definition bob : uuid := 8%N.

(** The database of the scenario after [t1] and [t2]: account [A] of
    [alice] with a balance of [120.00]. *)
Definition s : database := Scenario.s2.

(** What [bob] sends to file an expense of [20.00] on the account of
    [alice]. *)
Definition intrusion : transaction_values :=
  {| v_user_id := bob; v_account_id := Scenario.A; v_category_id := None;
     v_type := "expense"; v_amount := Some 2000; v_date := 3 |}.
Definition t9 : uuid := 19%N.


(** The scenario with the category [C] of expenses; the form filled in
    for an income of [7.00] on [A] filed under [C]. *)
Definition sC : database := Scenario.sC.
Definition filled : formData :=
  {| f_accountId := Some Scenario.A; f_categoryId := Some Scenario.C;
     f_amount := Some 700; f_date := 4 |}.
Definition cleared : formData :=
  {| f_accountId := Some Scenario.A; f_categoryId := None;
     f_amount := None; f_date := 5 |}.
Definition submitted : formData * database * option toast :=
  handleSubmit (Some alice) (Some Scenario.A) 5 t9 income filled sC.

(** Incomes of [0.10] and [0.20] on an account opened with [0.00]. *)
Definition tenths : database :=
  let s1 := commit Scenario.opened
              (insert_transaction Scenario.t1
                 (Scenario.values Scenario.A "income" 10) Scenario.opened) in
  commit s1
    (insert_transaction Scenario.t2
       (Scenario.values Scenario.A "income" 20) s1).
Definition row_tenths : account :=
  {| a_user_id := alice; a_name := "A"; a_currency := "USD";
     initial_balance := 0; current_balance := 30; a_created_at := 0 |}.
End Cases.

(** * [NaN] in the decimal columns

    PostgreSQL's [numeric] has, besides the numbers, the value [NaN],
    and a [DECIMAL(15,2)] column stores it: the check of precision and
    scale refuses a number of too many digits and the infinities, and
    lets [NaN] through. [NaN] is what every sum, difference and negation
    with a [NaN] operand gives. The tables have no [CHECK] on [amount] or
    on the balances, so a statement that supplies ['NaN'] as the amount
    of a transaction is carried out, trigger included.

    The definitions above describe the database as long as it holds
    numbers only and is given numbers only. The module [WithNaN] repeats
    the schema, the trigger and the statements with [NaN] as a value of
    the decimal columns; [embed] maps a database of numbers into it. *)

Module WithNaN.

(** A value of a decimal column: a number of cents, or [NaN]. *)
Inductive numeric : Type :=
  | Num (cents : Z)
  | NaN.

#[global] Instance numeric_eq_dec : EqDecision numeric.
Proof. solve_decision. Defined.

(** [x + y], [- x] and [x - y] on [numeric]. *)
Definition add (x y : numeric) : numeric :=
  match x, y with
  | Num a, Num b => Num (a + b)
  | _, _ => NaN
  end.

Definition opp (x : numeric) : numeric :=
  match x with
  | Num a => Num (- a)
  | NaN => NaN
  end.

Definition sub (x y : numeric) : numeric :=
  match x, y with
  | Num a, Num b => Num (a - b)
  | _, _ => NaN
  end.

(** What a statement can supply for a decimal column: a number (given
    by the cents it rounds to), ['NaN'], or one of ['Infinity'] and
    ['-Infinity']. *)
Inductive numeric_literal : Type :=
  | Decimal (cents : Z)
  | Not_a_number
  | Infinite.

(** Assignment to a [DECIMAL(15,2)] column. *)
Definition numeric_15_2 (v : numeric) : result numeric :=
  match v with
  | NaN => OK NaN
  | Num z =>
    if decide (in_numeric_15_2 z) then OK (Num z)
    else Err numeric_value_out_of_range
  end.

(** Assignment to a [DECIMAL(15,2) NOT NULL] column. *)
Definition numeric_15_2_not_null (v : option numeric) : result numeric :=
  match v with
  | None => Err not_null_violation
  | Some v => numeric_15_2 v
  end.

(** Conversion of a supplied value to a [DECIMAL(15,2) NOT NULL]
    column. *)
Definition numeric_15_2_in (v : option numeric_literal) : result numeric :=
  match v with
  | None => Err not_null_violation
  | Some (Decimal z) => numeric_15_2 (Num z)
  | Some Not_a_number => OK NaN
  | Some Infinite => Err numeric_value_out_of_range
  end.

(** ** Tables *)

Record account : Type := {
  a_user_id : uuid;
  a_name : string;
  a_currency : string;
  initial_balance : numeric;
  current_balance : numeric;
  a_created_at : Z
}.

Record transaction : Type := {
  t_user_id : uuid;
  account_id : uuid;
  category_id : option uuid;
  type : transaction_type;
  amount : numeric;
  date : Z
}.

Record database : Type := {
  accounts : gmap N account;
  categories : gmap N category;
  transactions : gmap N transaction
}.

Definition empty_database : database :=
  {| accounts := ∅; categories := ∅; transactions := ∅ |}.

(** ** The trigger function [update_account_balance] *)

Definition signed (ty : transaction_type) (m : numeric) : numeric :=
  match ty with
  | income => m
  | expense => opp m
  end.

(** [CASE WHEN ty = 'income' THEN m WHEN ty = 'expense' THEN -m END] *)
Definition case_type (ty : transaction_type) (m : numeric)
    : option numeric :=
  if decide (ty = income) then Some m
  else if decide (ty = expense) then Some (opp m)
  else None.

Definition set_current_balance (v : numeric) (r : account) : account :=
  {| a_user_id := a_user_id r; a_name := a_name r;
     a_currency := a_currency r; initial_balance := initial_balance r;
     current_balance := v; a_created_at := a_created_at r |}.

(** [UPDATE public.accounts SET current_balance = e WHERE id = aid] *)
Definition update_accounts (e : numeric → option numeric) (aid : uuid)
    (accs : gmap N account) : result (gmap N account) :=
  match accs !! aid with
  | None => OK accs
  | Some r =>
    v ← numeric_15_2_not_null (e (current_balance r));
    OK (<[aid := set_current_balance v r]> accs)
  end.

Inductive trigger_event : Type :=
  | TG_INSERT (NEW : transaction)
  | TG_UPDATE (OLD NEW : transaction)
  | TG_DELETE (OLD : transaction).

Definition update_account_balance (ev : trigger_event)
    (accs : gmap N account) : result (gmap N account) :=
  match ev with
  | TG_INSERT NEW =>
    update_accounts
      (λ b, add b <$> case_type (type NEW) (amount NEW))
      (account_id NEW) accs
  | TG_UPDATE OLD NEW =>
    accs1 ← update_accounts
      (λ b, sub b <$> case_type (type OLD) (amount OLD))
      (account_id OLD) accs;
    update_accounts
      (λ b, add b <$> case_type (type NEW) (amount NEW))
      (account_id NEW) accs1
  | TG_DELETE OLD =>
    update_accounts
      (λ b, sub b <$> case_type (type OLD) (amount OLD))
      (account_id OLD) accs
  end.

Fixpoint update_account_balance_trigger (evs : list trigger_event)
    (accs : gmap N account) : result (gmap N account) :=
  match evs with
  | [] => OK accs
  | ev :: evs =>
    accs1 ← update_account_balance ev accs;
    update_account_balance_trigger evs accs1
  end.

(** ** Statements on [transactions] *)

(** The values a statement supplies for a transaction row; [None] as
    amount is [NULL]. *)
Record transaction_values : Type := {
  v_user_id : uuid;
  v_account_id : uuid;
  v_category_id : option uuid;
  v_type : string;
  v_amount : option numeric_literal;
  v_date : Z
}.

Definition row (v : transaction_values) (ty : transaction_type)
    (m : numeric) : transaction :=
  {| t_user_id := v_user_id v; account_id := v_account_id v;
     category_id := v_category_id v; type := ty; amount := m;
     date := v_date v |}.

(** [INSERT INTO transactions (id, ...) VALUES (...)] *)
Definition insert_transaction (id : uuid) (v : transaction_values)
    (s : database) : result database :=
  ty ← transaction_type_in (v_type v);
  m ← numeric_15_2_in (v_amount v);
  match transactions s !! id with
  | Some _ => Err unique_violation
  | None =>
    let NEW := row v ty m in
    _ ← references (accounts s) (account_id NEW);
    _ ← references_opt (categories s) (category_id NEW);
    accs ← update_account_balance (TG_INSERT NEW) (accounts s);
    OK {| accounts := accs; categories := categories s;
          transactions := <[id := NEW]> (transactions s) |}
  end.

(** [UPDATE transactions SET ... WHERE id = id] *)
Definition update_transaction (id : uuid) (v : transaction_values)
    (s : database) : result database :=
  match transactions s !! id with
  | None => OK s
  | Some OLD =>
    ty ← transaction_type_in (v_type v);
    m ← numeric_15_2_in (v_amount v);
    let NEW := row v ty m in
    _ ← (if decide (account_id NEW = account_id OLD) then OK ()
         else references (accounts s) (account_id NEW));
    _ ← (if decide (category_id NEW = category_id OLD) then OK ()
         else references_opt (categories s) (category_id NEW));
    accs ← update_account_balance (TG_UPDATE OLD NEW) (accounts s);
    OK {| accounts := accs; categories := categories s;
          transactions := <[id := NEW]> (transactions s) |}
  end.

(** [DELETE FROM transactions WHERE id = id] *)
Definition delete_transaction (id : uuid) (s : database) : result database :=
  match transactions s !! id with
  | None => OK s
  | Some OLD =>
    accs ← update_account_balance (TG_DELETE OLD) (accounts s);
    OK {| accounts := accs; categories := categories s;
          transactions := delete id (transactions s) |}
  end.

(** ** Statements on [accounts] and [categories] *)

(** What [parseFloat] makes of the text of the field. *)
Inductive parsed : Type :=
  | Parsed (cents : Z)
  | parsed_NaN
  | parsed_Infinity.

(** [x || 0]: [NaN] is falsy (and so is [0]). *)
Definition or_zero (x : parsed) : parsed :=
  match x with
  | parsed_NaN => Parsed 0
  | _ => x
  end.

(** The number in the JSON body of the request: [JSON.stringify] writes
    an infinity as [null]. *)
Definition stringify (x : parsed) : option numeric_literal :=
  match x with
  | Parsed z => Some (Decimal z)
  | _ => None
  end.

(** [AccountsManager.handleAddAccount] *)
Definition handleAddAccount (id user : uuid) (name currency : string)
    (initialBalance : parsed) (now : Z) (s : database) : result database :=
  ib ← numeric_15_2_in (stringify (or_zero initialBalance));
  cb ← numeric_15_2_in (stringify (or_zero initialBalance));
  match accounts s !! id with
  | Some _ => Err unique_violation
  | None =>
    OK {| accounts :=
            <[id := {| a_user_id := user; a_name := name;
                       a_currency := currency; initial_balance := ib;
                       current_balance := cb; a_created_at := now |}]>
              (accounts s);
          categories := categories s;
          transactions := transactions s |}
  end.

(** [DELETE FROM accounts WHERE id = aid], with its cascade. *)
Definition delete_account (aid : uuid) (s : database) : result database :=
  match accounts s !! aid with
  | None => OK s
  | Some _ =>
    let cascaded := filter (λ kt, account_id kt.2 = aid) (transactions s) in
    accs ← update_account_balance_trigger
             (TG_DELETE <$> (map_to_list cascaded).*2)
             (delete aid (accounts s));
    OK {| accounts := accs; categories := categories s;
          transactions :=
            filter (λ kt, account_id kt.2 ≠ aid) (transactions s) |}
  end.

Definition insert_category (id user : uuid) (name : string)
    (ty : transaction_type) (s : database) : result database :=
  match categories s !! id with
  | Some _ => Err unique_violation
  | None =>
    OK {| accounts := accounts s;
          categories :=
            <[id := {| c_user_id := user; c_name := name;
                       c_transaction_type := ty |}]> (categories s);
          transactions := transactions s |}
  end.

Definition set_category_id (c : option uuid) (t : transaction) : transaction :=
  {| t_user_id := t_user_id t; account_id := account_id t;
     category_id := c; type := type t; amount := amount t; date := date t |}.

Definition set_null (cid : uuid) (t : transaction) : transaction :=
  if decide (category_id t = Some cid) then set_category_id None t else t.

(** [DELETE FROM categories WHERE id = cid], with its [SET NULL]. *)
Definition delete_category (cid : uuid) (s : database) : result database :=
  match categories s !! cid with
  | None => OK s
  | Some _ =>
    let referencing :=
      filter (λ kt, category_id kt.2 = Some cid) (transactions s) in
    accs ← update_account_balance_trigger
             ((λ t, TG_UPDATE t (set_null cid t)) <$>
                (map_to_list referencing).*2)
             (accounts s);
    OK {| accounts := accs; categories := delete cid (categories s);
          transactions := set_null cid <$> transactions s |}
  end.

Definition commit (s : database) (r : result database) : database :=
  match r with
  | OK s' => s'
  | Err _ => s
  end.

(** ** Balances *)

Definition balance_of (a : uuid) (s : database) : option numeric :=
  current_balance <$> accounts s !! a.

Definition sum_map {A} (f : A → numeric) (m : gmap N A) : numeric :=
  map_fold (λ _ x acc, add (f x) acc) (Num 0) m.

Definition contribution (a : uuid) (t : transaction) : numeric :=
  if decide (account_id t = a) then signed (type t) (amount t) else Num 0.

(** Σ signed amount of every transaction currently referencing [a]. *)
Definition signed_sum (a : uuid) (s : database) : numeric :=
  sum_map (contribution a) (transactions s).

(** [current_balance = initial_balance + Σ signed], for every account. *)
Definition balance_invariant (s : database) : Prop :=
  map_Forall
    (λ a r, current_balance r = add (initial_balance r) (signed_sum a s))
    (accounts s).

(** No row holds [NaN]. *)
Definition stores_numbers (s : database) : Prop :=
  map_Forall (λ _ r, initial_balance r ≠ NaN ∧ current_balance r ≠ NaN)
    (accounts s)
  ∧ map_Forall (λ _ t, amount t ≠ NaN) (transactions s).

#[global] Instance stores_numbers_dec s : Decision (stores_numbers s).
Proof. unfold stores_numbers. apply _. Defined.

#[global] Instance balance_invariant_dec s : Decision (balance_invariant s).
Proof. unfold balance_invariant. apply _. Defined.

(** The values a [DECIMAL(15,2)] column holds. *)
Definition is_numeric_15_2 (v : numeric) : Prop :=
  match v with
  | Num z => in_numeric_15_2 z
  | NaN => True
  end.

#[global] Instance is_numeric_15_2_dec v : Decision (is_numeric_15_2 v).
Proof. destruct v; simpl; apply _. Defined.

Definition balances_in_range (s : database) : Prop :=
  map_Forall (λ _ r, is_numeric_15_2 (current_balance r)) (accounts s).

#[global] Instance balances_in_range_dec s : Decision (balances_in_range s).
Proof. unfold balances_in_range. apply _. Defined.

Definition columns_in_range (s : database) : Prop :=
  map_Forall
    (λ _ r, is_numeric_15_2 (initial_balance r)
            ∧ is_numeric_15_2 (current_balance r))
    (accounts s)
  ∧ map_Forall (λ _ t, is_numeric_15_2 (amount t)) (transactions s).

(** The two foreign keys of [transactions]. *)
Definition referential_integrity (s : database) : Prop :=
  map_Forall
    (λ _ t, is_Some (accounts s !! account_id t)
            ∧ ∀ c, category_id t = Some c → is_Some (categories s !! c))
    (transactions s).

(** ** Sequences of statements *)

Inductive operation : Type :=
  | Create (id : uuid) (v : transaction_values)
  | Update (id : uuid) (v : transaction_values)
  | Delete (id : uuid).

Definition statement (op : operation) (s : database) : result database :=
  match op with
  | Create id v => insert_transaction id v s
  | Update id v => update_transaction id v s
  | Delete id => delete_transaction id s
  end.

(** The database after each operation of a sequence, in turn. *)
Fixpoint history (ops : list operation) (s : database) : list database :=
  match ops with
  | [] => []
  | op :: ops =>
    let s' := commit s (statement op s) in
    s' :: history ops s'
  end.

(** The operation does not supply ['NaN'] as an amount. *)
Definition supplies_no_NaN (op : operation) : Prop :=
  match op with
  | Create _ v | Update _ v => v_amount v ≠ Some Not_a_number
  | Delete _ => True
  end.

Inductive db_operation : Type :=
  | OnTransaction (op : operation)
  | AddAccount (id user : uuid) (name currency : string)
      (initialBalance : parsed) (now : Z)
  | DeleteAccount (aid : uuid)
  | AddCategory (id user : uuid) (name : string) (ty : transaction_type)
  | DeleteCategory (cid : uuid).

Definition run (op : db_operation) (s : database) : result database :=
  match op with
  | OnTransaction op => statement op s
  | AddAccount id user name currency initialBalance now =>
    handleAddAccount id user name currency initialBalance now s
  | DeleteAccount aid => delete_account aid s
  | AddCategory id user name ty => insert_category id user name ty s
  | DeleteCategory cid => delete_category cid s
  end.

Fixpoint run_all (ops : list db_operation) (s : database) : database :=
  match ops with
  | [] => s
  | op :: ops => run_all ops (commit s (run op s))
  end.

Definition amounts_are_numbers (op : db_operation) : Prop :=
  match op with
  | OnTransaction op => supplies_no_NaN op
  | _ => True
  end.

End WithNaN.

(** ** Databases of numbers among the databases with [NaN] *)

Definition result_map {A B} (f : A → B) (r : result A) : result B :=
  match r with
  | OK a => OK (f a)
  | Err e => Err e
  end.

Definition embed_account (r : account) : WithNaN.account :=
  {| WithNaN.a_user_id := a_user_id r; WithNaN.a_name := a_name r;
     WithNaN.a_currency := a_currency r;
     WithNaN.initial_balance := WithNaN.Num (initial_balance r);
     WithNaN.current_balance := WithNaN.Num (current_balance r);
     WithNaN.a_created_at := a_created_at r |}.

Definition embed_transaction (t : transaction) : WithNaN.transaction :=
  {| WithNaN.t_user_id := t_user_id t; WithNaN.account_id := account_id t;
     WithNaN.category_id := category_id t; WithNaN.type := type t;
     WithNaN.amount := WithNaN.Num (amount t); WithNaN.date := date t |}.

Definition embed (s : database) : WithNaN.database :=
  {| WithNaN.accounts := embed_account <$> accounts s;
     WithNaN.categories := categories s;
     WithNaN.transactions := embed_transaction <$> transactions s |}.

Definition embed_event (ev : trigger_event) : WithNaN.trigger_event :=
  match ev with
  | TG_INSERT NEW => WithNaN.TG_INSERT (embed_transaction NEW)
  | TG_UPDATE OLD NEW =>
    WithNaN.TG_UPDATE (embed_transaction OLD) (embed_transaction NEW)
  | TG_DELETE OLD => WithNaN.TG_DELETE (embed_transaction OLD)
  end.

(** The number stored, [0] for [NaN]. *)
Definition cents_of (v : WithNaN.numeric) : Z :=
  match v with
  | WithNaN.Num z => z
  | WithNaN.NaN => 0
  end.

Definition numbers_of_account (r : WithNaN.account) : account :=
  {| a_user_id := WithNaN.a_user_id r; a_name := WithNaN.a_name r;
     a_currency := WithNaN.a_currency r;
     initial_balance := cents_of (WithNaN.initial_balance r);
     current_balance := cents_of (WithNaN.current_balance r);
     a_created_at := WithNaN.a_created_at r |}.

Definition numbers_of_transaction (t : WithNaN.transaction) : transaction :=
  {| t_user_id := WithNaN.t_user_id t; account_id := WithNaN.account_id t;
     category_id := WithNaN.category_id t; type := WithNaN.type t;
     amount := cents_of (WithNaN.amount t); date := WithNaN.date t |}.

(** The database of numbers a database without [NaN] is the image of. *)
Definition numbers_of (s : WithNaN.database) : database :=
  {| accounts := numbers_of_account <$> WithNaN.accounts s;
     categories := WithNaN.categories s;
     transactions := numbers_of_transaction <$> WithNaN.transactions s |}.

(** A supplied amount other than ['NaN'], as an amount above: an
    infinity as a number of too many digits, which is refused with the
    same error. *)
Definition number_of_literal (v : WithNaN.numeric_literal) : Z :=
  match v with
  | WithNaN.Decimal z => z
  | WithNaN.Not_a_number => 0
  | WithNaN.Infinite => numeric_15_2_max + 1
  end.

Definition numbers_of_values (v : WithNaN.transaction_values)
    : transaction_values :=
  {| v_user_id := WithNaN.v_user_id v;
     v_account_id := WithNaN.v_account_id v;
     v_category_id := WithNaN.v_category_id v;
     v_type := WithNaN.v_type v;
     v_amount := number_of_literal <$> WithNaN.v_amount v;
     v_date := WithNaN.v_date v |}.

Definition numbers_of_operation (op : WithNaN.operation) : operation :=
  match op with
  | WithNaN.Create id v => Create id (numbers_of_values v)
  | WithNaN.Update id v => Update id (numbers_of_values v)
  | WithNaN.Delete id => Delete id
  end.

(** The balance a parsed text becomes above; an infinity, whose
    statement fails, as a number of too many digits, whose statement
    fails too. *)
Definition number_of_parsed (x : WithNaN.parsed) : option Z :=
  match x with
  | WithNaN.Parsed z => Some z
  | WithNaN.parsed_NaN => None
  | WithNaN.parsed_Infinity => Some (numeric_15_2_max + 1)
  end.

Definition numbers_of_db_operation (op : WithNaN.db_operation)
    : db_operation :=
  match op with
  | WithNaN.OnTransaction op => OnTransaction (numbers_of_operation op)
  | WithNaN.AddAccount id user name currency initialBalance now =>
    AddAccount id user name currency (number_of_parsed initialBalance) now
  | WithNaN.DeleteAccount aid => DeleteAccount aid
  | WithNaN.AddCategory id user name ty => AddCategory id user name ty
  | WithNaN.DeleteCategory cid => DeleteCategory cid
  end.

(** ** A transaction of amount [NaN] *)

Module NaNCase.
Definition A : uuid := 1%N.
Definition B : uuid := 2%N.
Definition t1 : uuid := 11%N.
Definition user : uuid := 7%N.

Definition values (a : uuid) (ty : string) (m : WithNaN.numeric_literal)
    : WithNaN.transaction_values :=
  {| WithNaN.v_user_id := user; WithNaN.v_account_id := a;
     WithNaN.v_category_id := None; WithNaN.v_type := ty;
     WithNaN.v_amount := Some m; WithNaN.v_date := 0 |}.

(** Account [A] with [initial_balance = 100.00] and no transactions. *)
Definition s0 : WithNaN.database :=
  WithNaN.commit WithNaN.empty_database
    (WithNaN.handleAddAccount A user "A" "USD" (WithNaN.Parsed 10000) 0
       WithNaN.empty_database).

(** An income of amount ['NaN'] created, then deleted. *)
Definition r1 : result WithNaN.database :=
  WithNaN.insert_transaction t1 (values A "income" WithNaN.Not_a_number) s0.
Definition s1 : WithNaN.database := WithNaN.commit s0 r1.
Definition r2 : result WithNaN.database := WithNaN.delete_transaction t1 s1.
Definition s2 : WithNaN.database := WithNaN.commit s1 r2.

(** The same with an income of [50.00]. *)
Definition n1 : WithNaN.database :=
  WithNaN.commit s0
    (WithNaN.insert_transaction t1
       (values A "income" (WithNaN.Decimal 5000)) s0).
Definition n2 : WithNaN.database :=
  WithNaN.commit n1 (WithNaN.delete_transaction t1 n1).

(** An income of amount ['NaN'] created, then updated to an expense of
    [20.00]; and that expense created at once. *)
Definition u2 : result WithNaN.database :=
  WithNaN.update_transaction t1
    (values A "expense" (WithNaN.Decimal 2000)) s1.
Definition direct : result WithNaN.database :=
  WithNaN.insert_transaction t1
    (values A "expense" (WithNaN.Decimal 2000)) s0.
End NaNCase.
(** ** Sums over a table *)

Section sum_map.
Context {A : Type} (f : A → Z).

Lemma sum_map_empty : sum_map f ∅ = 0.
Proof. unfold sum_map. by rewrite map_fold_empty. Qed.

Lemma sum_map_insert_fresh (m : gmap N A) k x :
  m !! k = None → sum_map f (<[k := x]> m) = f x + sum_map f m.
Proof.
  intros Hk. unfold sum_map.
  rewrite map_fold_insert_L; [done | intros; lia | done].
Qed.

Lemma sum_map_delete (m : gmap N A) k x :
  m !! k = Some x → sum_map f (delete k m) = sum_map f m - f x.
Proof.
  intros Hk. unfold sum_map.
  rewrite (map_fold_delete_L _ _ k x m); [lia | intros; lia | done].
Qed.

Lemma sum_map_insert (m : gmap N A) k x y :
  m !! k = Some x → sum_map f (<[k := y]> m) = sum_map f m - f x + f y.
Proof.
  intros Hk. rewrite <- insert_delete_eq.
  rewrite sum_map_insert_fresh by apply lookup_delete_eq.
  rewrite (sum_map_delete m k x Hk). lia.
Qed.

Lemma sum_map_filter (P : N * A → Prop) `{!∀ x, Decision (P x)}
    (m : gmap N A) :
  (∀ k x, m !! k = Some x → ¬ P (k, x) → f x = 0) →
  sum_map f (filter P m) = sum_map f m.
Proof.
  induction m as [|k x m Hk IH] using map_ind; intros Hz.
  { by rewrite map_filter_empty. }
  assert (sum_map f (filter P m) = sum_map f m) as IH'.
  { apply IH. intros k' x' Hk' HP. apply (Hz k' x'); [|done].
    rewrite lookup_insert_ne; [done | congruence]. }
  rewrite sum_map_insert_fresh by done.
  destruct (decide (P (k, x))) as [HP | HP].
  - rewrite map_filter_insert_True by done.
    rewrite sum_map_insert_fresh; [lia |].
    by rewrite map_lookup_filter_None; left.
  - rewrite map_filter_insert_not' by (done || congruence).
    rewrite (Hz k x); [lia | by rewrite lookup_insert_eq | done].
Qed.
End sum_map.

Lemma sum_map_fmap {A B} (f : B → Z) (g : A → B) (m : gmap N A) :
  sum_map f (g <$> m) = sum_map (f ∘ g) m.
Proof.
  induction m as [|k x m Hk IH] using map_ind.
  { by rewrite fmap_empty, !sum_map_empty. }
  rewrite fmap_insert, !sum_map_insert_fresh, IH; [done | done |].
  by rewrite lookup_fmap, Hk.
Qed.

Lemma sum_map_ext {A} (f g : A → Z) (m : gmap N A) :
  (∀ k x, m !! k = Some x → f x = g x) → sum_map f m = sum_map g m.
Proof.
  induction m as [|k x m Hk IH] using map_ind; intros Hfg.
  { by rewrite !sum_map_empty. }
  rewrite !sum_map_insert_fresh by done.
  rewrite (Hfg k x) by apply lookup_insert_eq.
  rewrite IH; [done |]. intros k' x' Hk'. apply (Hfg k').
  rewrite lookup_insert_ne; [done | congruence].
Qed.

(** ** Effect of the trigger on [accounts] *)



Lemma adjust_0 r : adjust 0 r = r.
Proof. destruct r. unfold adjust, set_current_balance. simpl. f_equal. lia. Qed.

Lemma adjust_adjust d1 d2 r : adjust d2 (adjust d1 r) = adjust (d1 + d2) r.
Proof. unfold adjust, set_current_balance. simpl. f_equal. lia. Qed.

Lemma current_balance_adjust d r :
  current_balance (adjust d r) = current_balance r + d.
Proof. done. Qed.

Lemma initial_balance_adjust d r :
  initial_balance (adjust d r) = initial_balance r.
Proof. done. Qed.

Lemma case_type_signed ty m : case_type ty m = Some (signed ty m).
Proof. by destruct ty. Qed.

Lemma numeric_15_2_OK v w : numeric_15_2 v = OK w → w = v ∧ in_numeric_15_2 v.
Proof. unfold numeric_15_2. case_decide; naive_solver. Qed.

Lemma numeric_15_2_in v : in_numeric_15_2 v → numeric_15_2 v = OK v.
Proof. unfold numeric_15_2. case_decide; naive_solver. Qed.

Lemma bind_OK {A B} (m : result A) (k : A → result B) b :
  m ≫= k = OK b → ∃ a, m = OK a ∧ k a = OK b.
Proof. destruct m; [eauto | done]. Qed.

(** A successful [UPDATE accounts SET current_balance = current_balance + d
    WHERE id = aid] shifts the balance of [aid] by [d] and keeps every
    other row. *)
Lemma update_accounts_OK (e : Z → option Z) d aid accs accs' :
  (∀ b, e b = Some (b + d)) →
  update_accounts e aid accs = OK accs' →
  (∀ a, accs' !! a =
        adjust (if decide (aid = a) then d else 0) <$> accs !! a)
  ∧ (∀ r, accs !! aid = Some r → in_numeric_15_2 (current_balance r + d)).
Proof.
  intros He. unfold update_accounts.
  destruct (accs !! aid) as [r|] eqn:Hr.
  - rewrite He. simpl. intros (v & Hv & [= <-])%bind_OK.
    apply numeric_15_2_OK in Hv as [-> Hin]. split.
    + intros a. case_decide as Ha.
      * subst a. by rewrite lookup_insert_eq, Hr.
      * rewrite lookup_insert_ne by done.
        destruct (accs !! a); simpl; [by rewrite adjust_0 | done].
    + by intros ? [= <-].
  - intros [= <-]. split; [|done]. intros a. case_decide.
    + subst a. by rewrite Hr.
    + destruct (accs !! a); simpl; [by rewrite adjust_0 | done].
Qed.

Lemma case_add ty m b :
  Z.add b <$> case_type ty m = Some (b + signed ty m).
Proof. by rewrite case_type_signed. Qed.

Lemma case_sub ty m b :
  Z.sub b <$> case_type ty m = Some (b + - signed ty m).
Proof. by rewrite case_type_signed. Qed.

Lemma fmap_adjust_adjust d1 d2 (o : option account) :
  adjust d2 <$> (adjust d1 <$> o) = adjust (d1 + d2) <$> o.
Proof. destruct o; simpl; [by rewrite adjust_adjust | done]. Qed.

(** The trigger function moves each balance by [delta]. *)
Lemma update_account_balance_OK ev accs accs' :
  update_account_balance ev accs = OK accs' →
  ∀ a, accs' !! a = adjust (delta ev a) <$> accs !! a.
Proof.
  destruct ev as [NEW | OLD NEW | OLD]; simpl.
  - intros [H _]%(update_accounts_OK _ (signed (type NEW) (amount NEW)));
      [|intros; apply case_add].
    intros a. rewrite H. unfold contribution. by repeat case_decide.
  - intros (accs1 & H1 & H2)%bind_OK.
    apply (update_accounts_OK _ (- signed (type OLD) (amount OLD))) in H1
      as [H1 _]; [|intros; apply case_sub].
    apply (update_accounts_OK _ (signed (type NEW) (amount NEW))) in H2
      as [H2 _]; [|intros; apply case_add].
    intros a. rewrite H2, H1, fmap_adjust_adjust. f_equal. f_equal.
    unfold contribution. repeat case_decide; lia.
  - intros [H _]%(update_accounts_OK _ (- signed (type OLD) (amount OLD)));
      [|intros; apply case_sub].
    intros a. rewrite H. unfold contribution. repeat case_decide; done.
Qed.


Lemma update_account_balance_trigger_OK evs accs accs' :
  update_account_balance_trigger evs accs = OK accs' →
  ∀ a, accs' !! a = adjust (delta_all evs a) <$> accs !! a.
Proof.
  revert accs. induction evs as [|ev evs IH]; simpl; intros accs.
  - intros [= <-] a. destruct (accs !! a); simpl; [by rewrite adjust_0|done].
  - intros (accs1 & H1 & H2)%bind_OK a.
    rewrite (IH _ H2), (update_account_balance_OK _ _ _ H1).
    by rewrite fmap_adjust_adjust.
Qed.

Lemma adjust_0_lookup (accs accs' : gmap N account) :
  (∀ a, accs' !! a = adjust 0 <$> accs !! a) → accs' = accs.
Proof.
  intros H. apply map_eq. intros a. rewrite H.
  destruct (accs !! a); simpl; [by rewrite adjust_0 | done].
Qed.

(** ** What a successful statement did *)


Lemma references_OK {A} (tbl : gmap N A) k u :
  references tbl k = OK u → is_Some (tbl !! k).
Proof. unfold references. destruct (tbl !! k); [eauto | done]. Qed.

Lemma numeric_15_2_not_null_OK o m :
  numeric_15_2_not_null o = OK m → o = Some m ∧ in_numeric_15_2 m.
Proof.
  destruct o as [v|]; simpl; [|done].
  intros [-> ?]%numeric_15_2_OK. done.
Qed.

Lemma insert_transaction_OK id v s s' :
  insert_transaction id v s = OK s' →
  ∃ ty m,
    transaction_type_in (v_type v) = OK ty
    ∧ v_amount v = Some m ∧ in_numeric_15_2 m
    ∧ transactions s !! id = None
    ∧ is_Some (accounts s !! v_account_id v)
    ∧ update_account_balance (TG_INSERT (row v ty m)) (accounts s)
      = OK (accounts s')
    ∧ categories s' = categories s
    ∧ transactions s' = <[id := row v ty m]> (transactions s).
Proof.
  unfold insert_transaction.
  intros (ty & Hty & H)%bind_OK. apply bind_OK in H as (m & Hm & H).
  apply numeric_15_2_not_null_OK in Hm as [Hm Hin].
  destruct (transactions s !! id) eqn:Hid; [done |].
  apply bind_OK in H as (? & Hacc%references_OK & H).
  apply bind_OK in H as (? & _ & H).
  apply bind_OK in H as (accs & Htg & [= <-]).
  exists ty, m. by repeat split.
Qed.

Lemma update_transaction_OK id v s s' OLD :
  transactions s !! id = Some OLD →
  update_transaction id v s = OK s' →
  ∃ ty m,
    transaction_type_in (v_type v) = OK ty
    ∧ v_amount v = Some m ∧ in_numeric_15_2 m
    ∧ (v_account_id v ≠ account_id OLD →
       is_Some (accounts s !! v_account_id v))
    ∧ update_account_balance (TG_UPDATE OLD (row v ty m)) (accounts s)
      = OK (accounts s')
    ∧ categories s' = categories s
    ∧ transactions s' = <[id := row v ty m]> (transactions s).
Proof.
  unfold update_transaction. intros Hid. rewrite Hid.
  intros (ty & Hty & H)%bind_OK.
  apply bind_OK in H as (m & Hm & H).
  apply numeric_15_2_not_null_OK in Hm as [Hm Hin].
  apply bind_OK in H as (? & Hacc & H).
  apply bind_OK in H as (? & _ & H).
  apply bind_OK in H as (accs & Htg & [= <-]).
  exists ty, m. repeat split; try done.
  intros Hne. simpl in Hacc. case_decide; [done |].
  by eapply references_OK.
Qed.

Lemma delete_transaction_OK id s s' OLD :
  transactions s !! id = Some OLD →
  delete_transaction id s = OK s' →
  update_account_balance (TG_DELETE OLD) (accounts s) = OK (accounts s')
  ∧ categories s' = categories s
  ∧ transactions s' = delete id (transactions s).
Proof.
  unfold delete_transaction. intros ->.
  by intros (accs & Htg & [= <-])%bind_OK.
Qed.

(** ** Preservation of the balance invariant *)

Lemma balance_invariant_shift (d : uuid → Z) s s' :
  (∀ a, accounts s' !! a = adjust (d a) <$> accounts s !! a) →
  (∀ a, signed_sum a s' = signed_sum a s + d a) →
  balance_invariant s → balance_invariant s'.
Proof.
  intros Hacc Hsum Hinv a r'. rewrite Hacc.
  destruct (accounts s !! a) as [r|] eqn:Hr; simpl; [|done].
  intros [= <-]. rewrite current_balance_adjust, initial_balance_adjust.
  rewrite (Hinv a r Hr), Hsum. lia.
Qed.

Lemma insert_transaction_invariant id v s s' :
  insert_transaction id v s = OK s' →
  balance_invariant s → balance_invariant s'.
Proof.
  intros (ty & m & _ & _ & _ & Hid & _ & Htg & _ & Htx)%insert_transaction_OK.
  apply (balance_invariant_shift (delta (TG_INSERT (row v ty m)))).
  - by apply update_account_balance_OK.
  - intros a. unfold signed_sum. rewrite Htx.
    rewrite sum_map_insert_fresh by done. simpl. lia.
Qed.

Lemma update_transaction_invariant id v s s' :
  update_transaction id v s = OK s' →
  balance_invariant s → balance_invariant s'.
Proof.
  destruct (transactions s !! id) as [OLD|] eqn:Hid.
  - intros (ty & m & _ & _ & _ & _ & Htg & _ & Htx)%
      (update_transaction_OK _ _ _ _ OLD Hid).
    apply (balance_invariant_shift (delta (TG_UPDATE OLD (row v ty m)))).
    + by apply update_account_balance_OK.
    + intros a. unfold signed_sum. rewrite Htx.
      rewrite (sum_map_insert _ _ _ OLD) by done. simpl. lia.
  - unfold update_transaction. rewrite Hid. by intros [= <-].
Qed.

Lemma delete_transaction_invariant id s s' :
  delete_transaction id s = OK s' →
  balance_invariant s → balance_invariant s'.
Proof.
  destruct (transactions s !! id) as [OLD|] eqn:Hid.
  - intros (Htg & _ & Htx)%(delete_transaction_OK _ _ _ OLD Hid).
    apply (balance_invariant_shift (delta (TG_DELETE OLD))).
    + by apply update_account_balance_OK.
    + intros a. unfold signed_sum. rewrite Htx.
      rewrite (sum_map_delete _ _ _ OLD) by done. simpl. lia.
  - unfold delete_transaction. rewrite Hid. by intros [= <-].
Qed.

(** ** When a statement succeeds *)

Lemma bind_OK_eq {A B} (m : result A) (k : A → result B) a :
  m = OK a → m ≫= k = k a.
Proof. by intros ->. Qed.

Lemma update_accounts_row (e : Z → option Z) d aid r accs :
  (∀ b, e b = Some (b + d)) →
  accs !! aid = Some r →
  in_numeric_15_2 (current_balance r + d) →
  update_accounts e aid accs = OK (<[aid := adjust d r]> accs).
Proof.
  intros He Hr Hin. unfold update_accounts. rewrite Hr, He. simpl.
  by rewrite numeric_15_2_in.
Qed.

(** A creation with a recognised type, an amount that fits the column
    (of either sign), a fresh id, an existing account whose new balance
    fits, and no category or an existing one, succeeds. *)
Lemma insert_transaction_succeeds id v s ty m r :
  transaction_type_in (v_type v) = OK ty →
  v_amount v = Some m → in_numeric_15_2 m →
  transactions s !! id = None →
  accounts s !! v_account_id v = Some r →
  is_OK (references_opt (categories s) (v_category_id v)) →
  in_numeric_15_2 (current_balance r + signed ty m) →
  insert_transaction id v s =
    OK {| accounts := <[v_account_id v := adjust (signed ty m) r]> (accounts s);
          categories := categories s;
          transactions := <[id := row v ty m]> (transactions s) |}.
Proof.
  intros Hty Hm Hin Hid Hr Hcat Hb. unfold insert_transaction.
  rewrite Hty, Hm. simpl. rewrite (numeric_15_2_in m Hin). simpl.
  rewrite Hid. unfold references. simpl. rewrite Hr. simpl.
  destruct (references_opt (categories s) (v_category_id v)); [|done].
  simpl.
  by rewrite (update_accounts_row _ (signed ty m) _ r _
                (λ b, case_add ty m b) Hr Hb).
Qed.

(** A deletion succeeds when the reverted balance fits the column. *)
Lemma delete_transaction_succeeds id s OLD r :
  transactions s !! id = Some OLD →
  accounts s !! account_id OLD = Some r →
  in_numeric_15_2 (current_balance r - signed (type OLD) (amount OLD)) →
  delete_transaction id s =
    OK {| accounts :=
            <[account_id OLD := adjust (- signed (type OLD) (amount OLD)) r]>
              (accounts s);
          categories := categories s;
          transactions := delete id (transactions s) |}.
Proof.
  intros Hid Hr Hb. unfold delete_transaction. rewrite Hid. simpl.
  by rewrite (update_accounts_row _ (- signed (type OLD) (amount OLD)) _ r _
                (λ b, case_sub _ _ b) Hr Hb).
Qed.

(** An update of the amount alone succeeds when the amount, the
    reverted balance and the final balance all fit the column. *)
Lemma update_amount_succeeds id v s OLD M2 r :
  transactions s !! id = Some OLD →
  v_account_id v = account_id OLD →
  v_category_id v = category_id OLD →
  transaction_type_in (v_type v) = OK (type OLD) →
  v_amount v = Some M2 → in_numeric_15_2 M2 →
  accounts s !! account_id OLD = Some r →
  in_numeric_15_2 (current_balance r - signed (type OLD) (amount OLD)) →
  in_numeric_15_2
    (current_balance r - signed (type OLD) (amount OLD)
     + signed (type OLD) M2) →
  update_transaction id v s =
    OK {| accounts :=
            <[account_id OLD :=
                adjust (signed (type OLD) M2
                        - signed (type OLD) (amount OLD)) r]> (accounts s);
          categories := categories s;
          transactions := <[id := row v (type OLD) M2]> (transactions s) |}.
Proof.
  intros Hid Ha Hc Hty Hm Hin Hr Hrev Hfin. unfold update_transaction.
  rewrite Hid, Hty. simpl. rewrite Hm. simpl.
  rewrite (numeric_15_2_in M2 Hin). simpl.
  rewrite Ha, Hc, !decide_True by done. simpl.
  set (c1 := signed (type OLD) (amount OLD)) in *.
  set (c2 := signed (type OLD) M2) in *.
  rewrite (update_accounts_row _ (- c1) _ r _ (λ b, case_sub _ _ b) Hr Hrev).
  simpl.
  rewrite (update_accounts_row _ c2 _ (adjust (- c1) r) _
             (λ b, case_add _ _ b)).
  - simpl. rewrite insert_insert_eq, adjust_adjust.
    replace (- c1 + c2) with (c2 - c1) by lia.
    unfold row. by rewrite Ha, Hc.
  - apply lookup_insert_eq.
  - by rewrite current_balance_adjust.
Qed.

(** The revert step is itself an assignment to the column: raising the
    expense [t1] from [10.00] to [20.00] would leave a balance that
    fits, but reverting [t1] first exceeds the column and the update is
    refused. *)
Example update_revert_overflow :
  balance_of Scenario.A Scenario.top2 = Some numeric_15_2_max
  ∧ update_transaction Scenario.t1
      (Scenario.values Scenario.A "expense" 2000) Scenario.top2
    = Err numeric_value_out_of_range.
Proof. split; vm_compute; reflexivity. Qed.

(** The firing for a cleared category reference reverts and re-applies
    the same contribution: when the reverted balance fits the column the
    table is left exactly as it was. *)
Lemma set_null_firing cid t (accs : gmap N account) :
  (∀ r, accs !! account_id t = Some r →
        in_numeric_15_2 (current_balance r - signed (type t) (amount t))
        ∧ in_numeric_15_2 (current_balance r)) →
  update_account_balance (TG_UPDATE t (set_null cid t)) accs = OK accs.
Proof.
  intros Hin.
  assert (account_id (set_null cid t) = account_id t
          ∧ type (set_null cid t) = type t
          ∧ amount (set_null cid t) = amount t) as (Ha & Hty & Hm).
  { unfold set_null. by case_decide. }
  unfold update_account_balance. rewrite Ha, Hty, Hm.
  set (c := signed (type t) (amount t)) in *.
  destruct (accs !! account_id t) as [r|] eqn:Hr.
  - destruct (Hin r eq_refl) as [Hrev Hcur].
    rewrite (update_accounts_row _ (- c) _ r _ (λ b, case_sub _ _ b) Hr Hrev).
    simpl.
    rewrite (update_accounts_row _ c _ (adjust (- c) r) _
               (λ b, case_add _ _ b)).
    + rewrite insert_insert_eq, adjust_adjust.
      replace (- c + c) with 0 by lia. rewrite adjust_0.
      by rewrite insert_id.
    + apply lookup_insert_eq.
    + rewrite current_balance_adjust.
      by replace (current_balance r + - c + c) with (current_balance r)
        by lia.
  - unfold update_accounts. rewrite Hr. simpl. by rewrite Hr.
Qed.

(** Transactions referencing a category do not keep it from being
    deleted, as long as each reverted balance fits the column. *)
Lemma delete_category_succeeds cid s :
  (∀ id t r, transactions s !! id = Some t → category_id t = Some cid →
     accounts s !! account_id t = Some r →
     in_numeric_15_2 (current_balance r - signed (type t) (amount t))
     ∧ in_numeric_15_2 (current_balance r)) →
  is_OK (delete_category cid s).
Proof.
  intros Hin. unfold delete_category.
  destruct (categories s !! cid); [|done].
  assert (update_account_balance_trigger
            ((λ t, TG_UPDATE t (set_null cid t)) <$>
               (map_to_list
                  (filter (λ kt, category_id kt.2 = Some cid)
                     (transactions s))).*2)
            (accounts s) = OK (accounts s)) as ->; [|done].
  assert (Forall (λ kt : N * transaction,
            transactions s !! kt.1 = Some kt.2
            ∧ category_id kt.2 = Some cid)
            (map_to_list
               (filter (λ kt, category_id kt.2 = Some cid)
                  (transactions s)))) as Hall.
  { apply Forall_forall. intros [k t] Hkt.
    by apply elem_of_map_to_list, map_lookup_filter_Some in Hkt. }
  induction Hall as [|[k t] l [Ht Hc] _ IH]; [done |].
  rewrite !fmap_cons. simpl in *.
  rewrite (bind_OK_eq _ _ (accounts s)); [exact IH |].
  apply set_null_firing. intros r Hr. by eapply Hin.
Qed.

(** ** Reachable databases *)

Lemma empty_database_invariant : balance_invariant empty_database.
Proof. apply map_Forall_empty. Qed.

(** An account is created with [current_balance = initial_balance]; as
    no transaction references the new account, the invariant is kept. *)
Lemma handleAddAccount_invariant id user name currency ib now s s' :
  (∀ k t, transactions s !! k = Some t → account_id t ≠ id) →
  handleAddAccount id user name currency ib now s = OK s' →
  balance_invariant s → balance_invariant s'.
Proof.
  intros Hfresh. unfold handleAddAccount.
  intros (b & [-> _]%numeric_15_2_OK & H)%bind_OK.
  apply bind_OK in H as (b' & [-> _]%numeric_15_2_OK & H).
  destruct (accounts s !! id) eqn:Hid; [done |].
  injection H as <-. intros Hinv a r. simpl.
  intros [[<- <-] | [Hne Hr]]%lookup_insert_Some.
  - simpl. unfold signed_sum. simpl.
    rewrite (sum_map_ext _ (λ _, 0)).
    + assert (∀ m : gmap N transaction, sum_map (λ _, 0) m = 0) as ->;
        [|lia].
      intros m. induction m as [|k x m Hk IH] using map_ind.
      * apply sum_map_empty.
      * rewrite sum_map_insert_fresh by done. lia.
    + intros k t Ht. unfold contribution.
      rewrite decide_False; [done |]. by eapply Hfresh.
  - by apply Hinv.
Qed.

(** ** Properties of the balance maintainer *)

Lemma history_invariant s ops :
  balance_invariant s → Forall balance_invariant (history ops s).
Proof.
  revert s. induction ops as [|op ops IH]; intros s Hinv; simpl.
  { constructor. }
  assert (balance_invariant (commit s (statement op s))) as Hinv'.
  { destruct (statement op s) as [s'|e] eqn:Hop; simpl; [|done].
    destruct op as [id v | id v | id]; simpl in Hop.
    - by eapply insert_transaction_invariant.
    - by eapply update_transaction_invariant.
    - by eapply delete_transaction_invariant. }
  constructor; [done |]. by apply IH.
Qed.

Lemma balance_of_shift d s s' a :
  accounts s' !! a = adjust d <$> accounts s !! a →
  balance_of a s' = (λ b, b + d) <$> balance_of a s.
Proof.
  unfold balance_of. intros ->. by destruct (accounts s !! a).
Qed.

(** C2. Updating the amount of a transaction of account [A] and type [T]
    from [M1] to [M2], type and account unchanged, changes the balance of
    [A] by exactly [signed T M2 - signed T M1] and leaves the balance of
    every other account unchanged. *)
Theorem update_amount_balance s id OLD v M2 s' :
  transactions s !! id = Some OLD →
  v_account_id v = account_id OLD →
  transaction_type_in (v_type v) = OK (type OLD) →
  v_amount v = Some M2 →
  update_transaction id v s = OK s' →
  balance_of (account_id OLD) s' =
    (λ b, b + (signed (type OLD) M2 - signed (type OLD) (amount OLD))) <$>
      balance_of (account_id OLD) s
  ∧ ∀ a, a ≠ account_id OLD → balance_of a s' = balance_of a s.
Proof.
  intros Hid Hacc Hty Hm
    (ty & m & Hty' & Hm' & _ & _ & Htg & _)%
    (update_transaction_OK _ _ _ _ OLD Hid).
  assert (ty = type OLD) as -> by congruence.
  assert (m = M2) as -> by congruence.
  clear Hty' Hm'.
  pose proof (update_account_balance_OK _ _ _ Htg) as Hshift.
  split.
  - apply balance_of_shift. rewrite Hshift. simpl. unfold contribution.
    simpl. rewrite Hacc. by rewrite !decide_True by done.
  - intros a Ha. rewrite (balance_of_shift 0 s s' a).
    + destruct (balance_of a s); simpl; [f_equal; lia | done].
    + rewrite Hshift. simpl. unfold contribution. simpl. rewrite Hacc.
      rewrite !decide_False by done. done.
Qed.

Lemma update_amount_balance_witness :
  balance_of Scenario.A Scenario.s3 =
    (λ b, b + (signed income 8000 - signed income 5000)) <$>
      balance_of Scenario.A Scenario.s2
  ∧ ∀ a, a ≠ Scenario.A → balance_of a Scenario.s3 = balance_of a Scenario.s2.
Proof.
  apply (update_amount_balance Scenario.s2 Scenario.t1 Scenario.row1
           (Scenario.values Scenario.A "income" 8000) 8000 Scenario.s3);
    vm_compute; reflexivity.
Defined.

Lemma shift_insert d aid r (accs accs' : gmap N account) :
  accs !! aid = Some r →
  (∀ a, accs' !! a =
        adjust (if decide (aid = a) then d else 0) <$> accs !! a) →
  accs' = <[aid := adjust d r]> accs.
Proof.
  intros Hr H. apply map_eq. intros a. rewrite H. case_decide.
  - subst a. by rewrite lookup_insert_eq, Hr.
  - rewrite lookup_insert_ne by done.
    destruct (accs !! a); simpl; [by rewrite adjust_0 | done].
Qed.

Lemma update_accounts_total (e : Z → option Z) d aid accs accs' :
  (∀ b, e b = Some (b + d)) →
  is_Some (accs !! aid) →
  update_accounts e aid accs = OK accs' →
  sum_map current_balance accs' = sum_map current_balance accs + d.
Proof.
  intros He [r Hr] [H _]%(update_accounts_OK _ d); [|done].
  rewrite (shift_insert _ _ _ _ _ Hr H).
  rewrite (sum_map_insert _ _ _ r) by done.
  rewrite current_balance_adjust. lia.
Qed.

(** C3. Updating the account reference of a transaction with signed
    contribution [c] from an account [A] to a distinct account [B]
    subtracts [c] from the balance of [A], adds [c] to the balance of
    [B], and leaves the sum of the balances of all accounts as it was. *)
Theorem move_transaction_balance s id OLD v A B s' :
  transactions s !! id = Some OLD →
  account_id OLD = A → v_account_id v = B → A ≠ B →
  is_Some (accounts s !! A) →
  transaction_type_in (v_type v) = OK (type OLD) →
  v_amount v = Some (amount OLD) →
  update_transaction id v s = OK s' →
  let c := signed (type OLD) (amount OLD) in
  ∃ bA bB,
    balance_of A s = Some bA ∧ balance_of B s = Some bB
    ∧ balance_of A s' = Some (bA - c)
    ∧ balance_of B s' = Some (bB + c)
    ∧ total_balance s' = total_balance s.
Proof.
  intros Hid HA HB Hne [rA HrA] Hty Hm
    (ty & m & Hty' & Hm' & _ & HBin & Htg & _)%
    (update_transaction_OK _ _ _ _ OLD Hid) c.
  assert (ty = type OLD) as -> by congruence.
  assert (m = amount OLD) as -> by congruence.
  clear Hty' Hm'.
  destruct HBin as [rB HrB]; [congruence |]. rewrite HB in HrB.
  pose proof (update_account_balance_OK _ _ _ Htg) as Hshift.
  exists (current_balance rA), (current_balance rB).
  unfold balance_of. rewrite HrA, HrB. do 2 (split; [done |]).
  rewrite !Hshift, HrA, HrB. simpl. unfold contribution. simpl.
  rewrite HA, HB.
  rewrite (decide_False (P := B = A)) by done.
  rewrite (decide_False (P := A = B)) by done.
  rewrite !decide_True by done.
  split; [f_equal; fold c; lia |]. split; [f_equal; fold c; lia |].
  simpl in Htg. apply bind_OK in Htg as (accs1 & H1 & H2).
  unfold total_balance.
  assert (is_Some (accs1 !! v_account_id v)) as HB1.
  { apply (update_accounts_OK _ (- signed (type OLD) (amount OLD))) in H1
      as [H1 _]; [|intros; apply case_sub].
    rewrite H1, HB, HrB. eauto. }
  assert (is_Some (accounts s !! account_id OLD)) as HA1.
  { rewrite HA. eauto. }
  rewrite (update_accounts_total _ (signed (type OLD) (amount OLD))
             _ _ _ (λ b, case_add _ _ b) HB1 H2).
  rewrite (update_accounts_total _ (- signed (type OLD) (amount OLD))
             _ _ _ (λ b, case_sub _ _ b) HA1 H1).
  lia.
Qed.

Lemma move_transaction_balance_witness :
  ∃ bA bB,
    balance_of Scenario.A Scenario.sAB = Some bA
    ∧ balance_of Scenario.B Scenario.sAB = Some bB
    ∧ balance_of Scenario.A Scenario.sBA = Some (bA - 5000)
    ∧ balance_of Scenario.B Scenario.sBA = Some (bB + 5000)
    ∧ total_balance Scenario.sBA = total_balance Scenario.sAB.
Proof.
  apply (move_transaction_balance Scenario.sAB Scenario.t1 Scenario.row1
           (Scenario.values Scenario.B "income" 5000)
           Scenario.A Scenario.B Scenario.sBA);
    try (vm_compute; reflexivity).
  - vm_compute. discriminate.
  - vm_compute. eauto.
Defined.

(** ** Cascades *)

(** Firing the trigger for deleted rows of an account that is already
    gone updates no row. *)
Lemma cascade_without_account aid evs (accs : gmap N account) :
  accs !! aid = None →
  Forall (λ ev, ∃ t, ev = TG_DELETE t ∧ account_id t = aid) evs →
  update_account_balance_trigger evs accs = OK accs.
Proof.
  intros Hnone. induction 1 as [|ev evs (t & -> & Ht) _ IH]; simpl; [done |].
  unfold update_accounts. rewrite Ht, Hnone. simpl. exact IH.
Qed.

Lemma delete_account_OK aid s :
  is_Some (accounts s !! aid) →
  delete_account aid s =
    OK {| accounts := delete aid (accounts s);
          categories := categories s;
          transactions :=
            filter (λ kt, account_id kt.2 ≠ aid) (transactions s) |}.
Proof.
  intros [r Hr]. unfold delete_account. rewrite Hr.
  rewrite (cascade_without_account aid); [done | apply lookup_delete_eq |].
  apply Forall_fmap, Forall_fmap, Forall_forall. intros [k t] Hkt.
  apply elem_of_map_to_list, map_lookup_filter_Some in Hkt as [_ Hkt].
  simpl. eauto.
Qed.

(** C5. Deleting an account [A] removes every transaction whose account
    reference is [A] (and only those), and leaves the balance of every
    other account unchanged, the firings of the trigger for the cascaded
    deletions included; the balance invariant is preserved. *)
Theorem delete_account_cascade s A :
  is_Some (accounts s !! A) →
  ∃ s', delete_account A s = OK s'
    ∧ accounts s' !! A = None
    ∧ (∀ id t, transactions s' !! id = Some t ↔
               transactions s !! id = Some t ∧ account_id t ≠ A)
    ∧ (∀ B, B ≠ A → balance_of B s' = balance_of B s)
    ∧ (balance_invariant s → balance_invariant s').
Proof.
  intros HA. eexists. split; [by apply delete_account_OK |]. simpl.
  split; [apply lookup_delete_eq |]. split; [|split].
  - intros id t. by rewrite map_lookup_filter_Some.
  - intros B HB. unfold balance_of. simpl. by rewrite lookup_delete_ne.
  - intros Hinv B r. simpl. intros [HB Hr]%lookup_delete_Some.
    rewrite (Hinv B r Hr). f_equal. unfold signed_sum. simpl.
    symmetry. apply sum_map_filter. intros k t _ Hk. simpl in Hk.
    unfold contribution. rewrite decide_False; [done |].
    intros Heq. apply Hk. congruence.
Qed.

Lemma delete_account_cascade_witness :
  ∃ s', delete_account Scenario.A Scenario.sAB = OK s'
    ∧ accounts s' !! Scenario.A = None
    ∧ (∀ id t, transactions s' !! id = Some t ↔
               transactions Scenario.sAB !! id = Some t
               ∧ account_id t ≠ Scenario.A)
    ∧ (∀ B, B ≠ Scenario.A → balance_of B s' = balance_of B Scenario.sAB)
    ∧ (balance_invariant Scenario.sAB → balance_invariant s').
Proof.
  apply (delete_account_cascade Scenario.sAB Scenario.A).
  vm_compute. eauto.
Defined.

Lemma contribution_set_null a cid t :
  contribution a (set_null cid t) = contribution a t.
Proof. unfold set_null. by case_decide. Qed.

Lemma delta_all_set_null cid (l : list transaction) a :
  delta_all ((λ t, TG_UPDATE t (set_null cid t)) <$> l) a = 0.
Proof.
  induction l as [|t l IH]; [done |].
  change (delta (TG_UPDATE t (set_null cid t)) a
          + delta_all ((λ t, TG_UPDATE t (set_null cid t)) <$> l) a = 0).
  rewrite IH. simpl. rewrite contribution_set_null. lia.
Qed.

Lemma delete_category_OK cid s s' :
  is_Some (categories s !! cid) →
  delete_category cid s = OK s' →
  accounts s' = accounts s
  ∧ categories s' = delete cid (categories s)
  ∧ transactions s' = set_null cid <$> transactions s.
Proof.
  intros [c Hc]. unfold delete_category. rewrite Hc.
  intros (accs & Htg & [= <-])%bind_OK. simpl. split; [|done].
  apply adjust_0_lookup. intros a.
  rewrite (update_account_balance_trigger_OK _ _ _ Htg).
  by rewrite delta_all_set_null.
Qed.

(** Clearing category references keeps the balance invariant. *)
Lemma delete_category_invariant cid s s' :
  delete_category cid s = OK s' →
  balance_invariant s → balance_invariant s'.
Proof.
  destruct (categories s !! cid) as [c|] eqn:Hc.
  - intros (Hacc & _ & Htx)%delete_category_OK; [|by eauto].
    intros Hinv a r. rewrite Hacc. intros Hr. rewrite (Hinv a r Hr).
    f_equal. unfold signed_sum. rewrite Htx, sum_map_fmap.
    apply sum_map_ext. intros k t _. simpl.
    by rewrite contribution_set_null.
  - unfold delete_category. rewrite Hc. by intros [= <-].
Qed.

Lemma delete_set_null cid t accs :
  update_account_balance (TG_DELETE (set_null cid t)) accs =
  update_account_balance (TG_DELETE t) accs.
Proof. unfold set_null. by case_decide. Qed.

(** C6. Deleting a category [C] deletes no transaction and does not keep
    a transaction that referenced [C] from being deleted afterwards.
    Each transaction that referenced [C] is still stored, with a
    category reference that is now none ([category_id = None]) and its
    other columns as before; every other transaction is as before; after
    the deletion no transaction references [C]. No account row changes,
    although the trigger fires for each transaction whose reference is
    cleared. *)
Theorem delete_category_set_null s C s' :
  is_Some (categories s !! C) →
  delete_category C s = OK s' →
  categories s' !! C = None
  ∧ (∀ id, is_Some (transactions s' !! id) ↔ is_Some (transactions s !! id))
  ∧ (∀ id t, transactions s !! id = Some t → category_id t = Some C →
       ∃ t', transactions s' !! id = Some t'
             ∧ category_id t' = None
             ∧ t_user_id t' = t_user_id t ∧ account_id t' = account_id t
             ∧ type t' = type t ∧ amount t' = amount t ∧ date t' = date t)
  ∧ (∀ id t, transactions s !! id = Some t → category_id t ≠ Some C →
             transactions s' !! id = Some t)
  ∧ (∀ id t', transactions s' !! id = Some t' → category_id t' ≠ Some C)
  ∧ accounts s' = accounts s
  ∧ (∀ a, balance_of a s' = balance_of a s)
  ∧ (∀ id, is_OK (delete_transaction id s) →
           is_OK (delete_transaction id s')).
Proof.
  intros HC (Hacc & Hcat & Htx)%delete_category_OK; [|done].
  assert (∀ id, transactions s' !! id = set_null C <$> transactions s !! id)
    as Hlook.
  { intros id. by rewrite Htx, lookup_fmap. }
  split; [rewrite Hcat; apply lookup_delete_eq |].
  split; [|split; [|split; [|split; [|split; [|split]]]]].
  - intros id. rewrite Hlook. by rewrite fmap_is_Some.
  - intros id t Ht Hc. exists (set_category_id None t).
    split; [|done]. rewrite Hlook, Ht. simpl. unfold set_null.
    by rewrite decide_True.
  - intros id t Ht Hc. rewrite Hlook, Ht. simpl. unfold set_null.
    by rewrite decide_False.
  - intros id t'. rewrite Hlook.
    destruct (transactions s !! id) as [t|]; simpl; [|done].
    intros [= <-]. unfold set_null. by case_decide.
  - done.
  - intros a. unfold balance_of. by rewrite Hacc.
  - intros id. unfold delete_transaction. rewrite Hlook, Hacc.
    destruct (transactions s !! id) as [t|]; [|done].
    change (set_null C <$> Some t) with (Some (set_null C t)).
    lazy beta iota. rewrite delete_set_null.
    by destruct (update_account_balance (TG_DELETE t) (accounts s)).
Qed.

Lemma delete_category_set_null_witness :
  (category_id <$> transactions Scenario.sCt !! Scenario.t2
     = Some (Some Scenario.C)
   ∧ category_id <$> transactions Scenario.sCd !! Scenario.t2 = Some None)
  ∧ categories Scenario.sCd !! Scenario.C = None
  ∧ (∀ id, is_Some (transactions Scenario.sCd !! id) ↔
           is_Some (transactions Scenario.sCt !! id))
  ∧ (∀ id t, transactions Scenario.sCt !! id = Some t →
       category_id t = Some Scenario.C →
       ∃ t', transactions Scenario.sCd !! id = Some t'
             ∧ category_id t' = None
             ∧ t_user_id t' = t_user_id t ∧ account_id t' = account_id t
             ∧ type t' = type t ∧ amount t' = amount t ∧ date t' = date t)
  ∧ (∀ id t, transactions Scenario.sCt !! id = Some t →
             category_id t ≠ Some Scenario.C →
             transactions Scenario.sCd !! id = Some t)
  ∧ (∀ id t', transactions Scenario.sCd !! id = Some t' →
              category_id t' ≠ Some Scenario.C)
  ∧ accounts Scenario.sCd = accounts Scenario.sCt
  ∧ (∀ a, balance_of a Scenario.sCd = balance_of a Scenario.sCt)
  ∧ (∀ id, is_OK (delete_transaction id Scenario.sCt) →
           is_OK (delete_transaction id Scenario.sCd)).
Proof.
  split; [split; vm_compute; reflexivity |].
  apply (delete_category_set_null Scenario.sCt Scenario.C Scenario.sCd).
  - vm_compute. eauto.
  - vm_compute. reflexivity.
Defined.

(** The category of the scenario was referenced, and its deletion cleared
    the reference without touching the balance. *)
Example delete_category_scenario :
  category_id <$> transactions Scenario.sCt !! Scenario.t2
    = Some (Some Scenario.C)
  ∧ category_id <$> transactions Scenario.sCd !! Scenario.t2 = Some None
  ∧ balance_of Scenario.A Scenario.sCt = Some 12000
  ∧ balance_of Scenario.A Scenario.sCd = Some 12000.
Proof. repeat split; vm_compute; reflexivity. Qed.

(** ** Validation *)

Lemma transaction_type_in_other s :
  s ≠ "income" → s ≠ "expense" →
  transaction_type_in s = Err invalid_text_representation.
Proof.
  intros. unfold transaction_type_in. by rewrite !decide_False by done.
Qed.

(** C7. A creation, or an update of a stored transaction, whose type
    value is neither [income] nor [expense] fails with an error: it is
    not completed with a zero contribution nor as an expense. An update
    that matches no row is no mutation: it completes with nothing done.
    In every case no account balance changes. *)
Theorem invalid_type_rejected s id v :
  v_type v ≠ "income" → v_type v ≠ "expense" →
  insert_transaction id v s = Err invalid_text_representation
  ∧ (is_Some (transactions s !! id) →
     update_transaction id v s = Err invalid_text_representation)
  ∧ (transactions s !! id = None → update_transaction id v s = OK s)
  ∧ (∀ a, balance_of a (commit s (insert_transaction id v s))
          = balance_of a s)
  ∧ (∀ a, balance_of a (commit s (update_transaction id v s))
          = balance_of a s).
Proof.
  intros H1 H2.
  assert (insert_transaction id v s = Err invalid_text_representation) as Hi.
  { unfold insert_transaction. by rewrite transaction_type_in_other. }
  assert (is_Some (transactions s !! id) →
          update_transaction id v s = Err invalid_text_representation) as Hu.
  { intros [OLD Hid]. unfold update_transaction.
    by rewrite Hid, transaction_type_in_other. }
  assert (transactions s !! id = None → update_transaction id v s = OK s)
    as Hn.
  { intros Hid. unfold update_transaction. by rewrite Hid. }
  split; [done |]. split; [done |]. split; [done |].
  split; [by rewrite Hi |].
  intros a. destruct (transactions s !! id) as [OLD|] eqn:Hid.
  - by rewrite Hu by eauto.
  - by rewrite Hn.
Qed.

Lemma invalid_type_rejected_witness :
  let v := Scenario.values Scenario.A "transfer" 5000 in
  insert_transaction Scenario.t2 v Scenario.s1
    = Err invalid_text_representation
  ∧ update_transaction Scenario.t1 v Scenario.s1
    = Err invalid_text_representation
  ∧ update_transaction Scenario.t2 v Scenario.s1 = OK Scenario.s1
  ∧ (∀ a, balance_of a
            (commit Scenario.s1 (insert_transaction Scenario.t2 v Scenario.s1))
          = balance_of a Scenario.s1)
  ∧ (∀ a, balance_of a
            (commit Scenario.s1 (update_transaction Scenario.t1 v Scenario.s1))
          = balance_of a Scenario.s1).
Proof.
  intros v.
  assert (v_type v ≠ "income") as H1 by (vm_compute; discriminate).
  assert (v_type v ≠ "expense") as H2 by (vm_compute; discriminate).
  split; [|split; [|split; [|split]]].
  - apply (invalid_type_rejected Scenario.s1 Scenario.t2 v H1 H2).
  - apply (invalid_type_rejected Scenario.s1 Scenario.t1 v H1 H2).
    vm_compute. eauto.
  - apply (invalid_type_rejected Scenario.s1 Scenario.t2 v H1 H2).
    vm_compute. reflexivity.
  - apply (invalid_type_rejected Scenario.s1 Scenario.t2 v H1 H2).
  - apply (invalid_type_rejected Scenario.s1 Scenario.t1 v H1 H2).
Defined.

(** C8, as stated, fails: a creation with the negative amount [-5.00] is
    accepted, the row is stored with that amount, and the balance of its
    account changes (an income of [-5.00] lowers it from [100.00] to
    [95.00]). *)
Lemma negative_amount_accepted :
  v_amount Scenario.negative = Some (-500)
  ∧ insert_transaction Scenario.t3 Scenario.negative Scenario.s0
    = OK Scenario.sN
  ∧ amount <$> transactions Scenario.sN !! Scenario.t3 = Some (-500)
  ∧ balance_of Scenario.A Scenario.s0 = Some 10000
  ∧ balance_of Scenario.A Scenario.sN = Some 9500.
Proof. repeat split; vm_compute; reflexivity. Qed.

Lemma numeric_15_2_not_null_invalid o :
  (o = None ∨ ∃ m, o = Some m ∧ ¬ in_numeric_15_2 m) →
  ∃ e, numeric_15_2_not_null o = Err e.
Proof.
  intros [-> | (m & -> & Hm)]; simpl; [eauto |].
  unfold numeric_15_2. rewrite decide_False by done. eauto.
Qed.

(** C8, amended. A creation, or an update of an existing transaction,
    whose amount is not a value of the column (it is null, as for a
    non-number, or its magnitude does not fit [DECIMAL(15,2)]) is
    rejected; after the attempt the tables [transactions] and [accounts]
    are as before. *)
Theorem invalid_amount_rejected s id v :
  (v_amount v = None ∨ ∃ m, v_amount v = Some m ∧ ¬ in_numeric_15_2 m) →
  ¬ is_OK (insert_transaction id v s)
  ∧ (is_Some (transactions s !! id) → ¬ is_OK (update_transaction id v s))
  ∧ commit s (insert_transaction id v s) = s
  ∧ commit s (update_transaction id v s) = s.
Proof.
  intros [e He]%numeric_15_2_not_null_invalid.
  assert (¬ is_OK (insert_transaction id v s)) as Hi.
  { unfold insert_transaction.
    destruct (transaction_type_in (v_type v)); simpl; [|tauto].
    rewrite He. simpl. tauto. }
  assert (is_Some (transactions s !! id) →
          ¬ is_OK (update_transaction id v s)) as Hu.
  { intros [OLD HOLD]. unfold update_transaction. rewrite HOLD.
    destruct (transaction_type_in (v_type v)); simpl; [|tauto].
    rewrite He. simpl. tauto. }
  split; [done |]. split; [done |]. split.
  - destruct (insert_transaction id v s); simpl in *; tauto.
  - destruct (transactions s !! id) as [OLD|] eqn:HOLD.
    + destruct (update_transaction id v s); simpl in *; [|done].
      exfalso. apply Hu; eauto.
    + unfold update_transaction. by rewrite HOLD.
Qed.

Lemma invalid_amount_rejected_witness :
  let v := {| v_user_id := Scenario.user; v_account_id := Scenario.A;
              v_category_id := None; v_type := "income";
              v_amount := None; v_date := 0 |} in
  ¬ is_OK (insert_transaction Scenario.t1 v Scenario.s1)
  ∧ (is_Some (transactions Scenario.s1 !! Scenario.t1) →
     ¬ is_OK (update_transaction Scenario.t1 v Scenario.s1))
  ∧ commit Scenario.s1 (insert_transaction Scenario.t1 v Scenario.s1)
    = Scenario.s1
  ∧ commit Scenario.s1 (update_transaction Scenario.t1 v Scenario.s1)
    = Scenario.s1.
Proof.
  intros v. apply (invalid_amount_rejected Scenario.s1 Scenario.t1 v).
  left. reflexivity.
Defined.

(** C9. The scenario of the specification: an account with
    [initial_balance = 100.00] and no transactions; creating
    [t1 = (income, 50.00)] gives [150.00]; creating
    [t2 = (expense, 30.00)] gives [120.00]; updating the amount of [t1]
    to [80.00] gives [150.00]; deleting [t2] gives [180.00]. Every step
    succeeds. *)
Theorem scenario_balances :
  (initial_balance <$> accounts Scenario.s0 !! Scenario.A = Some 10000
   ∧ transactions Scenario.s0 = ∅)
  ∧ (is_OK Scenario.r1 ∧ balance_of Scenario.A Scenario.s1 = Some 15000)
  ∧ (is_OK Scenario.r2 ∧ balance_of Scenario.A Scenario.s2 = Some 12000)
  ∧ (is_OK Scenario.r3 ∧ balance_of Scenario.A Scenario.s3 = Some 15000)
  ∧ (is_OK Scenario.r4 ∧ balance_of Scenario.A Scenario.s4 = Some 18000).
Proof.
  split; [split; vm_compute; reflexivity |].
  split; [split; [vm_compute; exact I | vm_compute; reflexivity] |].
  split; [split; [vm_compute; exact I | vm_compute; reflexivity] |].
  split; [split; [vm_compute; exact I | vm_compute; reflexivity] |].
  split; [vm_compute; exact I | vm_compute; reflexivity].
Qed.

(** ** The Dashboard summary *)




#[local] Instance date_descending_trans : Transitive date_descending.
Proof. unfold date_descending. intros x y z. lia. Qed.

#[local] Instance date_descending_total : Total date_descending.
Proof. unfold date_descending. intros x y. lia. Qed.

Lemma selected_rows_app sel l1 l2 :
  selected_rows sel (l1 ++ l2) = selected_rows sel l1 ++ selected_rows sel l2.
Proof. destruct sel; simpl; [apply filter_app | done]. Qed.

Lemma selected_rows_Permutation sel l1 l2 :
  l1 ≡ₚ l2 → selected_rows sel l1 ≡ₚ selected_rows sel l2.
Proof. destruct sel; simpl; [by intros -> | done]. Qed.

(** What [calculateTotals] adds up for a type. *)
Lemma reduce_amounts ty (l : list (uuid * transaction)) :
  foldl (λ sum t, PrimFloat.add sum (Number (amount t.2))) 0%float
    (filter (λ t, type t.2 = ty) l)
  = sum_of_doubles (amounts_of_type ty l).
Proof. unfold sum_of_doubles, amounts_of_type. by rewrite foldl_fmap. Qed.

Lemma amounts_of_type_app ty l1 l2 :
  amounts_of_type ty (l1 ++ l2)
  = amounts_of_type ty l1 ++ amounts_of_type ty l2.
Proof. unfold amounts_of_type. by rewrite filter_app, fmap_app. Qed.

Lemma amounts_of_type_Permutation ty l1 l2 :
  l1 ≡ₚ l2 → amounts_of_type ty l1 ≡ₚ amounts_of_type ty l2.
Proof. unfold amounts_of_type. by intros ->. Qed.

Lemma fetched_not_fetched uid s :
  (fetchData uid s).2 ++ not_fetched uid s
  ≡ₚ visible t_user_id uid (transactions s).
Proof.
  unfold fetchData, not_fetched. simpl. rewrite take_drop.
  apply merge_sort_Permutation.
Qed.

Lemma fetched_most_recent uid s x y :
  x ∈ (fetchData uid s).2 → y ∈ not_fetched uid s → date y.2 ≤ date x.2.
Proof.
  unfold fetchData, not_fetched. simpl. intros Hx Hy.
  eapply (StronglySorted_app_1_elem_of date_descending); [|done..].
  rewrite take_drop. apply (StronglySorted_merge_sort _).
Qed.

Lemma visible_lookup {A} (owner : A → uuid) uid (tbl : gmap N A) k x :
  (k, x) ∈ visible owner uid tbl ↔ tbl !! k = Some x ∧ owner x = uid.
Proof.
  unfold visible. rewrite list_elem_of_filter, elem_of_map_to_list.
  simpl. tauto.
Qed.

Lemma find_visible_account uid s a r (l : list (uuid * account)) :
  l ≡ₚ visible a_user_id uid (accounts s) →
  accounts s !! a = Some r → a_user_id r = uid →
  find (λ acc, bool_decide (acc.1 = a)) l = Some (a, r).
Proof.
  intros Hl Hr Hu.
  destruct (find _ l) as [[k x]|] eqn:Hfind.
  - apply find_some in Hfind as [Hin Hk%bool_decide_eq_true].
    simpl in Hk. subst k.
    apply list_elem_of_In in Hin. rewrite Hl in Hin.
    apply visible_lookup in Hin as [Hx _]. congruence.
  - exfalso. assert ((a, r) ∈ l) as Hin.
    { rewrite Hl. by apply visible_lookup. }
    apply list_elem_of_In in Hin.
    pose proof (find_none _ _ Hfind _ Hin) as Hf. simpl in Hf.
    by rewrite bool_decide_eq_false in Hf.
Qed.

(** C10. For a user with more than 50 persisted transactions, [fetchData]
    returns exactly 50 of them, none older than one it leaves behind, and
    at least one is left behind. Total Income and Total Expenses of
    [calculateTotals] are the doubles obtained by adding, from [0] and in
    the order fetched, the amounts of the fetched (selected) rows of the
    type: the amounts of the user's (selected) transactions of a type are
    those added up together with those of the older rows, which enter no
    total. Total Balance adds the doubles of [current_balance] of the
    user's accounts, respectively is the double of the
    [current_balance] of the selected account, and [current_balance] is,
    by the balance invariant, [initial_balance] plus the signed sum of
    every transaction referencing the account. *)
Theorem dashboard_totals uid s sel :
  balance_invariant s →
  (50 < length (visible t_user_id uid (transactions s)))%nat →
  let persisted := visible t_user_id uid (transactions s) in
  let fetched := (fetchData uid s).2 in
  let older := not_fetched uid s in
  let T := calculateTotals (fetchData uid s).1 fetched sel in
  length fetched = 50%nat
  ∧ length older = (length persisted - 50)%nat
  ∧ older ≠ []
  ∧ fetched ++ older ≡ₚ persisted
  ∧ (∀ x y, x ∈ fetched → y ∈ older → date y.2 ≤ date x.2)
  ∧ totalIncome T
    = sum_of_doubles (amounts_of_type income (selected_rows sel fetched))
  ∧ totalExpenses T
    = sum_of_doubles (amounts_of_type expense (selected_rows sel fetched))
  ∧ (∀ ty,
       amounts_of_type ty (selected_rows sel persisted)
       ≡ₚ amounts_of_type ty (selected_rows sel fetched)
          ++ amounts_of_type ty (selected_rows sel older))
  ∧ match sel with
    | None =>
      (fetchData uid s).1 ≡ₚ visible a_user_id uid (accounts s)
      ∧ totalBalance T =
          sum_of_doubles
            ((λ acc, initial_balance acc.2 + signed_sum acc.1 s)
               <$> (fetchData uid s).1)
    | Some a =>
      ∀ r, accounts s !! a = Some r → a_user_id r = uid →
        totalBalance T
        = or_zero (Number (initial_balance r + signed_sum a s))
    end.
Proof.
  intros Hinv Hlen persisted fetched older T.
  pose proof (fetched_not_fetched uid s) as Hperm.
  fold fetched older persisted in Hperm.
  assert (length (transactions_by_date uid s) = length persisted) as Hsorted.
  { unfold transactions_by_date. by rewrite merge_sort_Permutation. }
  assert (length older = (length persisted - 50)%nat) as Holder.
  { subst older persisted. unfold not_fetched.
    by rewrite length_drop, Hsorted. }
  split.
  { subst fetched persisted. unfold fetchData. cbn [snd].
    rewrite length_take, Hsorted. lia. }
  split; [done |].
  split.
  { intros Hnil. rewrite Hnil in Holder. simpl in Holder.
    subst persisted. lia. }
  split; [done |].
  split; [apply fetched_most_recent |].
  split; [apply reduce_amounts |]. split; [apply reduce_amounts |].
  split.
  { intros ty. rewrite <- amounts_of_type_app, <- selected_rows_app.
    apply amounts_of_type_Permutation, selected_rows_Permutation.
    by symmetry. }
  destruct sel as [a|]; subst T; cbn [totalBalance calculateTotals].
  - intros r Hr Hu.
    rewrite (find_visible_account uid s a r); [| |done..].
    + cbn [snd]. by rewrite (Hinv a r Hr).
    + apply merge_sort_Permutation.
  - split; [apply merge_sort_Permutation |].
    unfold sum_of_doubles. rewrite foldl_fmap.
    assert (Forall (λ acc : uuid * account,
                      current_balance acc.2
                      = initial_balance acc.2 + signed_sum acc.1 s)
              (fetchData uid s).1) as Hall.
    { apply Forall_forall. intros [k r] Hin.
      unfold fetchData in Hin. cbn [fst] in Hin.
      rewrite merge_sort_Permutation in Hin.
      apply visible_lookup in Hin as [Hr _]. simpl. by apply Hinv. }
    generalize (0%float).
    induction Hall as [|acc l Hacc _ IH]; intros z; simpl; [done |].
    by rewrite Hacc, IH.
Qed.

Lemma dashboard_totals_witness :
  let uid := Scenario.user in
  let s := Scenario.many in
  let sel : option N := None in
  let persisted := visible t_user_id uid (transactions s) in
  let fetched := (fetchData uid s).2 in
  let older := not_fetched uid s in
  let T := calculateTotals (fetchData uid s).1 fetched sel in
  length fetched = 50%nat
  ∧ length older = (length persisted - 50)%nat
  ∧ older ≠ []
  ∧ fetched ++ older ≡ₚ persisted
  ∧ (∀ x y, x ∈ fetched → y ∈ older → date y.2 ≤ date x.2)
  ∧ totalIncome T
    = sum_of_doubles (amounts_of_type income (selected_rows sel fetched))
  ∧ totalExpenses T
    = sum_of_doubles (amounts_of_type expense (selected_rows sel fetched))
  ∧ (∀ ty,
       amounts_of_type ty (selected_rows sel persisted)
       ≡ₚ amounts_of_type ty (selected_rows sel fetched)
          ++ amounts_of_type ty (selected_rows sel older))
  ∧ (fetchData uid s).1 ≡ₚ visible a_user_id uid (accounts s)
    ∧ totalBalance T =
        sum_of_doubles
          ((λ acc, initial_balance acc.2 + signed_sum acc.1 s)
             <$> (fetchData uid s).1).
Proof.
  apply (dashboard_totals Scenario.user Scenario.many None).
  - apply (bool_decide_unpack _). vm_compute. exact I.
  - vm_compute. lia.
Defined.

(** With 51 incomes of [1.00] on an account opened with [100.00], the
    summary shows a Total Income of [50] and a Total Balance of [151];
    the income of the oldest day is in no total. *)
Example dashboard_many :
  let d := fetchData Scenario.user Scenario.many in
  let T := calculateTotals d.1 d.2 None in
  length (amounts_of_type income
            (visible t_user_id Scenario.user (transactions Scenario.many)))
  = 51%nat
  ∧ totalIncome T = 50%float
  ∧ totalExpenses T = 0%float
  ∧ totalBalance T = 151%float
  ∧ date <$> (snd <$> not_fetched Scenario.user Scenario.many) = [1].
Proof.
  split; [vm_compute; reflexivity |].
  split; [vm_compute; reflexivity |].
  split; [vm_compute; reflexivity |].
  split; vm_compute; reflexivity.
Qed.

(** The totals are sums of doubles, rounded at each addition. With ten
    incomes and ten expenses of [9999999999999.99] the Total Income is
    the double [99999999999999.890625], which prints as
    [99999999999999.89], where the double nearest to their exact sum
    [99999999999999.90] is [99999999999999.90625]. *)
Example dashboard_rounding :
  let d := fetchData Scenario.user Scenario.twenty in
  let T := calculateTotals d.1 d.2 None in
  amounts_of_type income d.2 = replicate 10 numeric_15_2_max
  ∧ amounts_of_type expense d.2 = replicate 10 numeric_15_2_max
  ∧ totalIncome T = 0x1.6bcc41e8ffff9p+46%float
  ∧ totalExpenses T = 0x1.6bcc41e8ffff9p+46%float
  ∧ Number (10 * numeric_15_2_max) = 0x1.6bcc41e8ffffap+46%float
  ∧ totalBalance T = 0%float.
Proof.
  split; [vm_compute; reflexivity |].
  split; [vm_compute; reflexivity |].
  split; [vm_compute; reflexivity |].
  split; [vm_compute; reflexivity |].
  split; vm_compute; reflexivity.
Qed.

(** ** Further properties of the statements *)

(** X1. The labels of the enum round-trip: the text the form sends for a
    type is read back as that type, and no other text is read as it. *)
Theorem transaction_type_label ty s :
  transaction_type_in s = OK ty ↔ s = transaction_type_out ty.
Proof.
  unfold transaction_type_in. split.
  - repeat case_decide; subst; intros [= <-]; done.
  - intros ->. by destruct ty.
Qed.

Lemma transaction_type_label_witness :
  transaction_type_in "expense" = OK expense
  ∧ transaction_type_out income = "income".
Proof.
  split.
  - apply (transaction_type_label expense "expense"). reflexivity.
  - symmetry. apply (transaction_type_label income "income"). reflexivity.
Defined.

Lemma update_accounts_Err (e : Z → option Z) d aid accs err :
  (∀ b, e b = Some (b + d)) →
  update_accounts e aid accs = Err err →
  err = numeric_value_out_of_range.
Proof.
  intros He. unfold update_accounts. destruct (accs !! aid) as [r|]; [|done].
  rewrite He. simpl. unfold numeric_15_2. by case_decide; intros [= <-].
Qed.

Lemma update_account_balance_Err ev accs err :
  update_account_balance ev accs = Err err →
  err = numeric_value_out_of_range.
Proof.
  destruct ev as [NEW | OLD NEW | OLD]; simpl.
  - apply (update_accounts_Err _ _ _ _ _ (λ b, case_add _ _ b)).
  - destruct (update_accounts _ (account_id OLD) accs) as [accs1|e1] eqn:H1;
      simpl.
    + apply (update_accounts_Err _ _ _ _ _ (λ b, case_add _ _ b)).
    + intros [= <-].
      by apply (update_accounts_Err _ _ _ _ _ (λ b, case_sub _ _ b)) in H1.
  - apply (update_accounts_Err _ _ _ _ _ (λ b, case_sub _ _ b)).
Qed.

Lemma update_account_balance_trigger_Err evs accs err :
  update_account_balance_trigger evs accs = Err err →
  err = numeric_value_out_of_range.
Proof.
  revert accs. induction evs as [|ev evs IH]; intros accs; simpl; [done |].
  destruct (update_account_balance ev accs) as [accs1|e1] eqn:H1; simpl.
  - apply IH.
  - intros [= <-]. by apply update_account_balance_Err in H1.
Qed.

(** X2. The trigger never stores [NULL] in [current_balance]: its [CASE]
    covers both labels of the enum, so the only error a firing can raise
    is an overflow of the column. Hence deleting a transaction or a
    category can only fail with [numeric_value_out_of_range]. *)
Theorem trigger_fails_by_overflow_only :
  (∀ ev accs err, update_account_balance ev accs = Err err →
     err = numeric_value_out_of_range)
  ∧ (∀ id s err, delete_transaction id s = Err err →
       err = numeric_value_out_of_range)
  ∧ (∀ cid s err, delete_category cid s = Err err →
       err = numeric_value_out_of_range).
Proof.
  split; [apply update_account_balance_Err |]. split.
  - intros id s err. unfold delete_transaction.
    destruct (transactions s !! id) as [OLD|]; [|done].
    destruct (update_account_balance _ _) as [accs|e] eqn:H; simpl; [done |].
    intros [= <-]. by apply update_account_balance_Err in H.
  - intros cid s err. unfold delete_category.
    destruct (categories s !! cid); [|done].
    destruct (update_account_balance_trigger _ _) as [accs|e] eqn:H; simpl;
      [done |].
    intros [= <-]. by apply update_account_balance_trigger_Err in H.
Qed.

Lemma trigger_fails_by_overflow_only_witness :
  ∃ err,
    update_account_balance
      (TG_UPDATE
         (row (Scenario.values Scenario.A "expense" 1000) expense 1000)
         (row (Scenario.values Scenario.A "expense" 2000) expense 2000))
      (accounts Scenario.top2) = Err err
    ∧ err = numeric_value_out_of_range.
Proof.
  exists numeric_value_out_of_range.
  assert (update_account_balance
      (TG_UPDATE
         (row (Scenario.values Scenario.A "expense" 1000) expense 1000)
         (row (Scenario.values Scenario.A "expense" 2000) expense 2000))
      (accounts Scenario.top2) = Err numeric_value_out_of_range) as H.
  { vm_compute. reflexivity. }
  split; [exact H |].
  destruct trigger_fails_by_overflow_only as (Htg & _ & _).
  exact (Htg _ _ _ H).
Defined.

(** X3. A creation that references an account that does not exist, or a
    category that does not exist, is refused with
    [foreign_key_violation]. *)
Theorem insert_unknown_reference id v s ty m :
  transaction_type_in (v_type v) = OK ty →
  v_amount v = Some m → in_numeric_15_2 m →
  transactions s !! id = None →
  (accounts s !! v_account_id v = None
   ∨ ∃ c, v_category_id v = Some c ∧ categories s !! c = None) →
  insert_transaction id v s = Err foreign_key_violation.
Proof.
  intros Hty Hm Hin Hid Href. unfold insert_transaction.
  rewrite Hty, Hm. simpl. rewrite (numeric_15_2_in m Hin). simpl.
  rewrite Hid. unfold references. simpl.
  destruct (accounts s !! v_account_id v) as [r|] eqn:Hr; simpl; [|done].
  destruct Href as [? | (c & Hc & Hnone)]; [done |].
  rewrite Hc. simpl. unfold references. by rewrite Hnone.
Qed.

Lemma insert_unknown_reference_witness :
  insert_transaction Scenario.t3
    (Scenario.values_in Scenario.A (Some Scenario.C) "expense" 100)
    Scenario.s1
  = Err foreign_key_violation.
Proof.
  apply (insert_unknown_reference _ _ _ expense 100);
    try (vm_compute; reflexivity).
  - vm_compute. discriminate.
  - right. exists Scenario.C. split; vm_compute; reflexivity.
Defined.

(** ** Sessions under row-level security *)

(** X4. Deleting from the list a transaction that is no longer there, or
    one that belongs to another user, reports success and changes
    nothing. *)
Theorem handleDelete_not_visible uid id s :
  (∀ t, transactions s !! id = Some t → t_user_id t ≠ uid) →
  handleDelete uid id s = (s, Transaction_deleted).
Proof.
  intros H. unfold handleDelete, delete_transaction_as.
  destruct (transactions s !! id) as [t|] eqn:Ht; [|done].
  by rewrite decide_False by by apply H.
Qed.

Lemma handleDelete_not_visible_witness :
  handleDelete Cases.bob Scenario.t1 Cases.s = (Cases.s, Transaction_deleted)
  ∧ handleDelete Cases.alice Cases.t9 Cases.s
    = (Cases.s, Transaction_deleted).
Proof.
  split.
  - apply (handleDelete_not_visible Cases.bob Scenario.t1 Cases.s).
    vm_compute. intros t [= <-]. simpl. discriminate.
  - apply (handleDelete_not_visible Cases.alice Cases.t9 Cases.s).
    vm_compute. discriminate.
Defined.

(** X5. Deleting one's own transaction from the list, when the reverted
    balance fits the column, removes the row and takes its signed
    contribution back from the balance of its account; no other account
    row changes. *)
Theorem handleDelete_own uid id s OLD r :
  transactions s !! id = Some OLD → t_user_id OLD = uid →
  accounts s !! account_id OLD = Some r →
  in_numeric_15_2 (current_balance r - signed (type OLD) (amount OLD)) →
  ∃ s', handleDelete uid id s = (s', Transaction_deleted)
    ∧ transactions s' = delete id (transactions s)
    ∧ balance_of (account_id OLD) s'
      = Some (current_balance r - signed (type OLD) (amount OLD))
    ∧ ∀ a, a ≠ account_id OLD → accounts s' !! a = accounts s !! a.
Proof.
  intros Hid Hu Hr Hin. unfold handleDelete, delete_transaction_as.
  rewrite Hid, decide_True by done.
  rewrite (delete_transaction_succeeds id s OLD r Hid Hr Hin).
  eexists. split; [done |]. simpl. split; [done |]. split.
  - unfold balance_of. simpl. by rewrite lookup_insert_eq.
  - intros a Ha. by rewrite lookup_insert_ne.
Qed.

Lemma handleDelete_own_witness :
  ∃ s', handleDelete Cases.alice Scenario.t2 Cases.s
        = (s', Transaction_deleted)
    ∧ transactions s' = delete Scenario.t2 (transactions Cases.s)
    ∧ balance_of Scenario.A s' = Some (12000 - signed expense 3000)
    ∧ ∀ a, a ≠ Scenario.A → accounts s' !! a = accounts Cases.s !! a.
Proof.
  apply (handleDelete_own Cases.alice Scenario.t2 Cases.s
           (row (Scenario.values Scenario.A "expense" 3000) expense 3000)
           {| a_user_id := Cases.alice; a_name := "A"; a_currency := "USD";
              initial_balance := 10000; current_balance := 12000;
              a_created_at := 0 |});
    try (vm_compute; reflexivity).
  vm_compute. discriminate.
Defined.

(** X6. A session cannot change a transaction of another user: an update
    aimed at such a row updates nothing and leaves the database as it
    is. *)
Theorem update_as_not_owner uid id v s OLD ty :
  transaction_type_in (v_type v) = OK ty →
  transactions s !! id = Some OLD → t_user_id OLD ≠ uid →
  update_transaction_as uid id v s = Executed (OK s).
Proof.
  intros Hty Hid Hu. unfold update_transaction_as.
  by rewrite Hid, decide_False.
Qed.

Lemma update_as_not_owner_witness :
  update_transaction_as Cases.bob Scenario.t1 Cases.intrusion Cases.s
  = Executed (OK Cases.s).
Proof.
  apply (update_as_not_owner Cases.bob Scenario.t1 Cases.intrusion Cases.s
           (row (Scenario.values Scenario.A "income" 5000) income 5000)
           expense);
    try (vm_compute; reflexivity).
  vm_compute. discriminate.
Defined.

(** X7. The policies of [transactions] do not look at the owner of the
    referenced account: a user who files a transaction of their own on
    the account of another user is not refused, and the balance of that
    account moves by the signed amount. *)
Theorem insert_as_on_foreign_account uid id v s ty m r :
  v_user_id v = uid →
  accounts s !! v_account_id v = Some r → a_user_id r ≠ uid →
  transaction_type_in (v_type v) = OK ty →
  v_amount v = Some m → in_numeric_15_2 m →
  transactions s !! id = None →
  is_OK (references_opt (categories s) (v_category_id v)) →
  in_numeric_15_2 (current_balance r + signed ty m) →
  ∃ s', insert_transaction_as uid id v s = Executed (OK s')
    ∧ transactions s' !! id = Some (row v ty m)
    ∧ accounts s' !! v_account_id v = Some (adjust (signed ty m) r).
Proof.
  intros Hu Hr _ Hty Hm Hin Hid Hcat Hb. unfold insert_transaction_as.
  rewrite Hty, Hm. simpl. rewrite (numeric_15_2_in m Hin). simpl.
  rewrite decide_True by done.
  rewrite (insert_transaction_succeeds id v s ty m r) by done.
  eexists. split; [done |]. simpl. by rewrite !lookup_insert_eq.
Qed.

Lemma insert_as_on_foreign_account_witness :
  ∃ s', insert_transaction_as Cases.bob Cases.t9 Cases.intrusion Cases.s
        = Executed (OK s')
    ∧ transactions s' !! Cases.t9
      = Some (row Cases.intrusion expense 2000)
    ∧ accounts s' !! Scenario.A
      = Some (adjust (signed expense 2000)
                {| a_user_id := Cases.alice; a_name := "A";
                   a_currency := "USD"; initial_balance := 10000;
                   current_balance := 12000; a_created_at := 0 |}).
Proof.
  apply (insert_as_on_foreign_account Cases.bob Cases.t9 Cases.intrusion
           Cases.s expense 2000);
    first [ vm_compute; reflexivity
          | vm_compute; discriminate
          | vm_compute; exact I ].
Defined.

(** ** The form [AddTransactionForm] *)

Lemma transaction_type_in_out ty :
  transaction_type_in (transaction_type_out ty) = OK ty.
Proof. by destruct ty. Qed.

Lemma submit_succeeds uid id ty fd s a m r :
  f_accountId fd = Some a → f_amount fd = Some m → in_numeric_15_2 m →
  transactions s !! id = None →
  accounts s !! a = Some r →
  is_OK (references_opt (categories s) (f_categoryId fd)) →
  in_numeric_15_2 (current_balance r + signed ty m) →
  submit uid id ty fd s =
    Executed
      (OK {| accounts := <[a := adjust (signed ty m) r]> (accounts s);
             categories := categories s;
             transactions :=
               <[id := {| t_user_id := uid; account_id := a;
                          category_id := f_categoryId fd; type := ty;
                          amount := m; date := f_date fd |}]>
                 (transactions s) |}).
Proof.
  intros Ha Hm Hin Hid Hr Hcat Hb. unfold submit, insert_transaction_as.
  rewrite Ha. simpl. rewrite transaction_type_in_out, Hm. simpl.
  rewrite (numeric_15_2_in m Hin). simpl. rewrite decide_True by done.
  rewrite (insert_transaction_succeeds id _ s ty m r);
    [done | apply transaction_type_in_out | done..].
Qed.

(** X8. Submitting a filled-in form (an account that exists, an amount
    that fits, no category or an existing one, a balance that stays in
    range) stores the row with the values of the form, moves the balance
    of the chosen account by the signed amount, leaves the other
    accounts alone, and resets the form. *)
Theorem handleSubmit_succeeds uid sel today id ty fd s a m r :
  f_accountId fd = Some a → f_amount fd = Some m → in_numeric_15_2 m →
  transactions s !! id = None →
  accounts s !! a = Some r →
  is_OK (references_opt (categories s) (f_categoryId fd)) →
  in_numeric_15_2 (current_balance r + signed ty m) →
  ∃ s',
    handleSubmit (Some uid) sel today id ty fd s =
      ({| f_accountId := sel; f_categoryId := None; f_amount := None;
          f_date := today |}, s', Some Transaction_added)
    ∧ transactions s' !! id =
        Some {| t_user_id := uid; account_id := a;
                category_id := f_categoryId fd; type := ty; amount := m;
                date := f_date fd |}
    ∧ balance_of a s' = Some (current_balance r + signed ty m)
    ∧ ∀ b, b ≠ a → accounts s' !! b = accounts s !! b.
Proof.
  intros Ha Hm Hin Hid Hr Hcat Hb. unfold handleSubmit.
  rewrite (submit_succeeds uid id ty fd s a m r) by done.
  eexists. split; [done |]. simpl. split; [by rewrite lookup_insert_eq |].
  split.
  - unfold balance_of. simpl. by rewrite lookup_insert_eq.
  - intros b Hne. by rewrite lookup_insert_ne.
Qed.

Lemma handleSubmit_succeeds_witness :
  ∃ s',
    Cases.submitted = (Cases.cleared, s', Some Transaction_added)
    ∧ transactions s' !! Cases.t9 =
        Some {| t_user_id := Cases.alice; account_id := Scenario.A;
                category_id := Some Scenario.C; type := income;
                amount := 700; date := 4 |}
    ∧ balance_of Scenario.A s' = Some (15000 + signed income 700)
    ∧ ∀ b, b ≠ Scenario.A → accounts s' !! b = accounts Cases.sC !! b.
Proof.
  apply (handleSubmit_succeeds Cases.alice (Some Scenario.A) 5 Cases.t9
           income Cases.filled Cases.sC Scenario.A 700
           {| a_user_id := Cases.alice; a_name := "A"; a_currency := "USD";
              initial_balance := 10000; current_balance := 15000;
              a_created_at := 0 |});
    first [ vm_compute; reflexivity
          | vm_compute; discriminate
          | vm_compute; exact I ].
Defined.

(** X9. Nothing ties the type of a transaction to the type of its
    category: the form keeps the chosen category when the type tab is
    switched, and the database stores a row of one type under a category
    of the other. *)
Theorem handleSubmit_category_of_other_type uid sel today id ty fd s a m r
    c cat :
  f_categoryId fd = Some c → categories s !! c = Some cat →
  c_transaction_type cat ≠ ty →
  f_accountId fd = Some a → f_amount fd = Some m → in_numeric_15_2 m →
  transactions s !! id = None →
  accounts s !! a = Some r →
  in_numeric_15_2 (current_balance r + signed ty m) →
  ∃ fd' s' t,
    handleSubmit (Some uid) sel today id ty fd s
      = (fd', s', Some Transaction_added)
    ∧ transactions s' !! id = Some t
    ∧ category_id t = Some c
    ∧ categories s' !! c = Some cat
    ∧ type t ≠ c_transaction_type cat.
Proof.
  intros Hc Hcat Hne Ha Hm Hin Hid Hr Hb. unfold handleSubmit.
  rewrite (submit_succeeds uid id ty fd s a m r); try done.
  - do 3 eexists. split; [done |]. simpl.
    split; [by rewrite lookup_insert_eq |]. simpl. by repeat split.
  - rewrite Hc. simpl. unfold references. by rewrite Hcat.
Qed.

Lemma handleSubmit_category_of_other_type_witness :
  ∃ fd' s' t,
    Cases.submitted = (fd', s', Some Transaction_added)
    ∧ transactions s' !! Cases.t9 = Some t
    ∧ category_id t = Some Scenario.C
    ∧ categories s' !! Scenario.C
      = Some {| c_user_id := Cases.alice; c_name := "Food";
                c_transaction_type := expense |}
    ∧ type t ≠ expense.
Proof.
  apply (handleSubmit_category_of_other_type Cases.alice (Some Scenario.A) 5
           Cases.t9 income Cases.filled Cases.sC Scenario.A 700
           {| a_user_id := Cases.alice; a_name := "A"; a_currency := "USD";
              initial_balance := 10000; current_balance := 15000;
              a_created_at := 0 |}
           Scenario.C
           {| c_user_id := Cases.alice; c_name := "Food";
              c_transaction_type := expense |});
    first [ vm_compute; reflexivity
          | vm_compute; discriminate
          | vm_compute; exact I ].
Defined.

(** X10. The request of the form always carries the id of the signed-in
    user, so the policy never refuses it; a form without an account is
    rejected and leaves the form and the database as they are; without a
    signed-in user nothing is sent. *)
Theorem handleSubmit_rejections uid sel today id ty fd s :
  (∃ r, submit uid id ty fd s = Executed r)
  ∧ (f_accountId fd = None →
     handleSubmit (Some uid) sel today id ty fd s = (fd, s, Some Error))
  ∧ handleSubmit None sel today id ty fd s = (fd, s, None).
Proof.
  split; [|split; [|done]].
  - unfold submit, insert_transaction_as.
    destruct (f_accountId fd); [|eauto]. simpl.
    destruct (_ ← transaction_type_in _; amount_cast _); [|eauto].
    rewrite decide_True by done. eauto.
  - intros Ha. unfold handleSubmit, submit. by rewrite Ha.
Qed.

Lemma handleSubmit_rejections_witness :
  let fd := {| f_accountId := None; f_categoryId := None;
               f_amount := Some 700; f_date := 4 |} in
  (∃ r, submit Cases.alice Cases.t9 income fd Cases.sC = Executed r)
  ∧ (f_accountId fd = None →
     handleSubmit (Some Cases.alice) None 5 Cases.t9 income fd Cases.sC
     = (fd, Cases.sC, Some Error))
  ∧ handleSubmit None None 5 Cases.t9 income fd Cases.sC
    = (fd, Cases.sC, None).
Proof.
  intros fd.
  apply (handleSubmit_rejections Cases.alice None 5 Cases.t9 income fd
           Cases.sC).
Defined.

(** X11. A successful submission cannot be repeated as it stands: it
    clears the amount, so submitting the form again without entering an
    amount is rejected and changes nothing. *)
Theorem handleSubmit_twice uid sel today id ty fd s fd' s' :
  handleSubmit (Some uid) sel today id ty fd s
    = (fd', s', Some Transaction_added) →
  ∀ sel' today' id' ty',
    handleSubmit (Some uid) sel' today' id' ty' fd' s'
      = (fd', s', Some Error).
Proof.
  unfold handleSubmit at 1.
  destruct (submit uid id ty fd s) as [[s1|e]|]; [|done..].
  intros [= <- <-] sel' today' id' ty'.
  unfold handleSubmit, submit, insert_transaction_as. simpl.
  destruct sel as [a|]; [|done]. simpl.
  rewrite transaction_type_in_out. simpl. rewrite decide_True by done.
  unfold insert_transaction. simpl. by rewrite transaction_type_in_out.
Qed.

Lemma handleSubmit_twice_witness :
  Cases.submitted.1.1 = Cases.cleared
  ∧ handleSubmit (Some Cases.alice) None 6 Cases.t9 expense
      Cases.submitted.1.1 Cases.submitted.1.2
    = (Cases.submitted.1.1, Cases.submitted.1.2, Some Error).
Proof.
  split; [vm_compute; reflexivity |].
  apply (handleSubmit_twice Cases.alice (Some Scenario.A) 5 Cases.t9 income
           Cases.filled Cases.sC).
  vm_compute. reflexivity.
Defined.

(** ** Updates *)

(** X12. A completed update of a transaction, whatever it changes
    (account, type, amount, or all of them), moves the balance of every
    account by the new contribution of the row to that account minus its
    old one, and touches no other transaction. *)
Theorem update_transaction_shift id v s s' OLD :
  transactions s !! id = Some OLD →
  update_transaction id v s = OK s' →
  ∃ NEW,
    transactions s' !! id = Some NEW
    ∧ (∀ a, balance_of a s' =
            (λ b, b + (contribution a NEW - contribution a OLD)) <$>
              balance_of a s)
    ∧ ∀ k, k ≠ id → transactions s' !! k = transactions s !! k.
Proof.
  intros Hid (ty & m & _ & _ & _ & _ & Htg & _ & Htx)%
    (update_transaction_OK _ _ _ _ OLD Hid).
  exists (row v ty m). rewrite Htx. split; [apply lookup_insert_eq |]. split.
  - intros a. apply balance_of_shift.
    by rewrite (update_account_balance_OK _ _ _ Htg).
  - intros k Hk. by rewrite lookup_insert_ne.
Qed.

Lemma update_transaction_shift_witness :
  let s' := commit Scenario.s2
              (update_transaction Scenario.t1
                 (Scenario.values Scenario.A "expense" 5000) Scenario.s2) in
  balance_of Scenario.A Scenario.s2 = Some 12000
  ∧ balance_of Scenario.A s' = Some 2000
  ∧ ∃ NEW,
      transactions s' !! Scenario.t1 = Some NEW
      ∧ (∀ a, balance_of a s' =
              (λ b, b + (contribution a NEW - contribution a Scenario.row1))
                <$> balance_of a Scenario.s2)
      ∧ ∀ k, k ≠ Scenario.t1 →
          transactions s' !! k = transactions Scenario.s2 !! k.
Proof.
  intros s'. split; [vm_compute; reflexivity |].
  split; [vm_compute; reflexivity |].
  apply (update_transaction_shift Scenario.t1
           (Scenario.values Scenario.A "expense" 5000) Scenario.s2);
    vm_compute; reflexivity.
Defined.

(** X13. The revert step of the trigger is an assignment to the column
    of its own: when reverting the old contribution takes the balance
    out of the range of the column, the update is refused with
    [numeric_value_out_of_range] whatever the new amount and type are,
    even when the balance after the update would fit. *)
Theorem update_refused_when_revert_overflows id v s OLD ty m r :
  transactions s !! id = Some OLD →
  transaction_type_in (v_type v) = OK ty →
  v_amount v = Some m → in_numeric_15_2 m →
  v_account_id v = account_id OLD →
  v_category_id v = category_id OLD →
  accounts s !! account_id OLD = Some r →
  ¬ in_numeric_15_2 (current_balance r - signed (type OLD) (amount OLD)) →
  update_transaction id v s = Err numeric_value_out_of_range.
Proof.
  intros Hid Hty Hm Hin Ha Hc Hr Hrev. unfold update_transaction.
  rewrite Hid, Hty. simpl. rewrite Hm. simpl.
  rewrite (numeric_15_2_in m Hin). simpl.
  rewrite Ha, Hc, !decide_True by done. simpl.
  unfold update_accounts at 2. rewrite Hr, case_sub. simpl.
  unfold numeric_15_2. by rewrite decide_False.
Qed.

Lemma update_refused_when_revert_overflows_witness :
  update_transaction Scenario.t1
    (Scenario.values Scenario.A "expense" 2000) Scenario.top2
  = Err numeric_value_out_of_range
  ∧ in_numeric_15_2 (numeric_15_2_max + 1000 - 2000).
Proof.
  split; [|vm_compute; discriminate].
  apply (update_refused_when_revert_overflows Scenario.t1
           (Scenario.values Scenario.A "expense" 2000) Scenario.top2
           (row (Scenario.values Scenario.A "expense" 1000) expense 1000)
           expense 2000
           {| a_user_id := Scenario.user; a_name := "A";
              a_currency := "USD"; initial_balance := numeric_15_2_max;
              current_balance := numeric_15_2_max; a_created_at := 0 |});
    try (vm_compute; reflexivity).
  - vm_compute. discriminate.
  - vm_compute. intros H. apply H. reflexivity.
Defined.

Lemma insert_transaction_category id v s s' :
  insert_transaction id v s = OK s' →
  is_OK (references_opt (categories s) (v_category_id v)).
Proof.
  unfold insert_transaction.
  intros (ty & _ & H)%bind_OK. apply bind_OK in H as (m & _ & H).
  destruct (transactions s !! id); [done |].
  apply bind_OK in H as (? & _ & H).
  apply bind_OK in H as (? & Hc & _). simpl in Hc. by rewrite Hc.
Qed.

Lemma update_transaction_category id v s s' OLD :
  transactions s !! id = Some OLD →
  update_transaction id v s = OK s' →
  v_category_id v ≠ category_id OLD →
  is_OK (references_opt (categories s) (v_category_id v)).
Proof.
  unfold update_transaction. intros Hid. rewrite Hid.
  intros (ty & _ & H)%bind_OK Hne. apply bind_OK in H as (m & _ & H).
  apply bind_OK in H as (? & _ & H).
  apply bind_OK in H as (? & Hc & _). simpl in Hc.
  rewrite decide_False in Hc by done. by rewrite Hc.
Qed.

(** ** Databases reachable from the empty one *)

Lemma update_accounts_range (e : Z → option Z) d aid accs accs' :
  (∀ b, e b = Some (b + d)) →
  update_accounts e aid accs = OK accs' →
  accounts_in_range accs → accounts_in_range accs'.
Proof.
  intros He [Hl Hin]%(update_accounts_OK _ d); [|done].
  intros Hrange a r'. rewrite Hl.
  destruct (accs !! a) as [r|] eqn:Hr; simpl; [|done]. intros [= <-].
  destruct (Hrange a r Hr) as [Hi Hc]. case_decide.
  - subst a. split; [done |]. rewrite current_balance_adjust. by apply Hin.
  - by rewrite adjust_0.
Qed.

Lemma update_account_balance_range ev accs accs' :
  update_account_balance ev accs = OK accs' →
  accounts_in_range accs → accounts_in_range accs'.
Proof.
  destruct ev as [NEW | OLD NEW | OLD]; simpl.
  - apply (update_accounts_range _ _ _ _ _ (λ b, case_add _ _ b)).
  - intros (accs1 & H1 & H2)%bind_OK Hr.
    apply (update_accounts_range _ _ _ _ _ (λ b, case_add _ _ b) H2).
    apply (update_accounts_range _ _ _ _ _ (λ b, case_sub _ _ b) H1 Hr).
  - apply (update_accounts_range _ _ _ _ _ (λ b, case_sub _ _ b)).
Qed.

Lemma update_account_balance_trigger_range evs accs accs' :
  update_account_balance_trigger evs accs = OK accs' →
  accounts_in_range accs → accounts_in_range accs'.
Proof.
  revert accs. induction evs as [|ev evs IH]; simpl; intros accs.
  - by intros [= <-].
  - intros (accs1 & H1 & H2)%bind_OK Hr.
    apply (IH _ H2). by apply (update_account_balance_range _ _ _ H1).
Qed.

Lemma shift_is_Some (d : N → Z) (accs accs' : gmap N account) a :
  (∀ a, accs' !! a = adjust (d a) <$> accs !! a) →
  is_Some (accs !! a) → is_Some (accs' !! a).
Proof. intros H [r Hr]. rewrite H, Hr. simpl. eauto. Qed.

Lemma insert_transaction_well_formed id v s s' :
  insert_transaction id v s = OK s' → well_formed s → well_formed s'.
Proof.
  intros H (Hinv & Hri & Hacc & Htxr).
  split; [by eapply insert_transaction_invariant |].
  pose proof (insert_transaction_category _ _ _ _ H) as Hcat.
  apply insert_transaction_OK in H
    as (ty & m & _ & _ & Hin & Hid & Ha & Htg & Hc & Htx).
  pose proof (update_account_balance_OK _ _ _ Htg) as Hs.
  split; [|split].
  - unfold referential_integrity. rewrite Htx, Hc.
    apply map_Forall_insert; [done |]. split.
    + split; [by apply (shift_is_Some _ _ _ _ Hs) |].
      simpl. intros c Hvc. rewrite Hvc in Hcat. simpl in Hcat.
      unfold references in Hcat. by destruct (categories s !! c).
    + intros k t Ht. destruct (Hri k t Ht) as [H1 H2].
      split; [by apply (shift_is_Some _ _ _ _ Hs) | done].
  - by apply (update_account_balance_range _ _ _ Htg).
  - rewrite Htx. by apply map_Forall_insert.
Qed.

Lemma update_transaction_well_formed id v s s' :
  update_transaction id v s = OK s' → well_formed s → well_formed s'.
Proof.
  intros H (Hinv & Hri & Hacc & Htxr).
  split; [by eapply update_transaction_invariant |].
  destruct (transactions s !! id) as [OLD|] eqn:Hid.
  2: { unfold update_transaction in H. rewrite Hid in H.
       by injection H as <-. }
  pose proof (update_transaction_category _ _ _ _ _ Hid H) as Hcat.
  apply (update_transaction_OK _ _ _ _ _ Hid) in H
    as (ty & m & _ & _ & Hin & Hfk & Htg & Hc & Htx).
  pose proof (update_account_balance_OK _ _ _ Htg) as Hs.
  destruct (Hri id OLD Hid) as [Hoa Hoc].
  split; [|split].
  - unfold referential_integrity. rewrite Htx, Hc.
    apply map_Forall_insert_2.
    + split.
      * apply (shift_is_Some _ _ _ _ Hs). simpl.
        destruct (decide (v_account_id v = account_id OLD)) as [->|Hne];
          [done | by apply Hfk].
      * simpl. intros c Hvc.
        destruct (decide (v_category_id v = category_id OLD)) as [Heq|Hne].
        -- apply Hoc. congruence.
        -- specialize (Hcat Hne). rewrite Hvc in Hcat. simpl in Hcat.
           unfold references in Hcat. by destruct (categories s !! c).
    + intros k t Ht. destruct (Hri k t Ht) as [H1 H2].
      split; [by apply (shift_is_Some _ _ _ _ Hs) | done].
  - by apply (update_account_balance_range _ _ _ Htg).
  - rewrite Htx. by apply map_Forall_insert_2.
Qed.

Lemma delete_transaction_well_formed id s s' :
  delete_transaction id s = OK s' → well_formed s → well_formed s'.
Proof.
  intros H (Hinv & Hri & Hacc & Htxr).
  split; [by eapply delete_transaction_invariant |].
  destruct (transactions s !! id) as [OLD|] eqn:Hid.
  2: { unfold delete_transaction in H. rewrite Hid in H.
       by injection H as <-. }
  apply (delete_transaction_OK _ _ _ _ Hid) in H as (Htg & Hc & Htx).
  pose proof (update_account_balance_OK _ _ _ Htg) as Hs.
  split; [|split].
  - unfold referential_integrity. rewrite Htx, Hc.
    intros k t [_ Ht]%lookup_delete_Some.
    destruct (Hri k t Ht) as [H1 H2].
    split; [by apply (shift_is_Some _ _ _ _ Hs) | done].
  - by apply (update_account_balance_range _ _ _ Htg).
  - rewrite Htx. by apply map_Forall_delete.
Qed.

Lemma handleAddAccount_well_formed id user name currency ib now s s' :
  handleAddAccount id user name currency ib now s = OK s' →
  well_formed s → well_formed s'.
Proof.
  intros H (Hinv & Hri & Hacc & Htxr).
  assert (accounts s !! id = None ∧ in_numeric_15_2 (default 0 ib)
          ∧ accounts s' = <[id := {| a_user_id := user; a_name := name;
                a_currency := currency; initial_balance := default 0 ib;
                current_balance := default 0 ib; a_created_at := now |}]>
              (accounts s)
          ∧ categories s' = categories s
          ∧ transactions s' = transactions s) as (Hid & Hin & Ha & Hc & Htx).
  { unfold handleAddAccount in H.
    apply bind_OK in H as (b & [-> Hin]%numeric_15_2_OK & H).
    apply bind_OK in H as (b' & [-> _]%numeric_15_2_OK & H).
    destruct (accounts s !! id); [done |]. by injection H as <-. }
  split; [|split; [|split]].
  - eapply handleAddAccount_invariant; [|exact H|exact Hinv].
    intros k t Ht Heq. destruct (Hri k t Ht) as [[r Hr] _].
    rewrite Heq in Hr. congruence.
  - unfold referential_integrity. rewrite Htx, Ha, Hc.
    intros k t Ht. destruct (Hri k t Ht) as [[r Hr] H2]. split; [|done].
    destruct (decide (id = account_id t)) as [<-|Hne];
      [rewrite lookup_insert_eq; eauto |].
    rewrite lookup_insert_ne by done. eauto.
  - unfold accounts_in_range. rewrite Ha. by apply map_Forall_insert.
  - by rewrite Htx.
Qed.

Lemma delete_account_well_formed aid s s' :
  delete_account aid s = OK s' → well_formed s → well_formed s'.
Proof.
  intros H (Hinv & Hri & Hacc & Htxr).
  destruct (accounts s !! aid) as [r|] eqn:Hr.
  2: { unfold delete_account in H. rewrite Hr in H. by injection H as <-. }
  rewrite delete_account_OK in H by eauto. injection H as <-.
  split; [|split; [|split]]; simpl.
  - intros B rB. simpl. intros [HB HrB]%lookup_delete_Some.
    rewrite (Hinv B rB HrB). f_equal. unfold signed_sum. simpl.
    symmetry. apply sum_map_filter. intros k t _ Hk. simpl in Hk.
    unfold contribution. rewrite decide_False; [done |].
    intros Heq. apply Hk. congruence.
  - intros k t [Ht Hne]%map_lookup_filter_Some. simpl in *.
    destruct (Hri k t Ht) as [H1 H2]. split; [|done].
    by rewrite lookup_delete_ne.
  - intros a ra [_ Hra]%lookup_delete_Some. by apply (Hacc a ra).
  - intros k t [Ht _]%map_lookup_filter_Some. by apply (Htxr k t).
Qed.

Lemma insert_category_well_formed id user name ty s s' :
  insert_category id user name ty s = OK s' →
  well_formed s → well_formed s'.
Proof.
  intros H (Hinv & Hri & Hacc & Htxr). unfold insert_category in H.
  destruct (categories s !! id) eqn:Hid; [done |]. injection H as <-.
  split; [done |]. split; [|done].
  intros k t Ht. simpl in *. destruct (Hri k t Ht) as [H1 H2].
  split; [done |]. intros c Hc.
  destruct (decide (id = c)) as [<-|Hne].
  - rewrite lookup_insert_eq. eauto.
  - rewrite lookup_insert_ne by done. by apply H2.
Qed.

Lemma delete_category_well_formed cid s s' :
  delete_category cid s = OK s' → well_formed s → well_formed s'.
Proof.
  intros H (Hinv & Hri & Hacc & Htxr).
  split; [by eapply delete_category_invariant |].
  destruct (categories s !! cid) as [c|] eqn:Hc.
  2: { unfold delete_category in H. rewrite Hc in H. by injection H as <-. }
  apply delete_category_OK in H as (Ha & Hcat & Htx); [|eauto].
  split; [|split].
  - unfold referential_integrity. rewrite Htx, Ha, Hcat.
    intros k t'. rewrite lookup_fmap.
    destruct (transactions s !! k) as [t|] eqn:Ht; simpl; [|done].
    intros [= <-]. destruct (Hri k t Ht) as [H1 H2]. unfold set_null.
    case_decide as Hd; simpl; [by split |]. split; [done |].
    intros c' Hc'. rewrite lookup_delete_ne by congruence. by apply H2.
  - unfold columns_in_range. by rewrite Ha.
  - rewrite Htx. intros k t'. rewrite lookup_fmap.
    destruct (transactions s !! k) as [t|] eqn:Ht; simpl; [|done].
    intros [= <-]. specialize (Htxr k t Ht). unfold set_null.
    by case_decide.
Qed.

Lemma run_well_formed op s :
  well_formed s → well_formed (commit s (run op s)).
Proof.
  intros Hwf. destruct (run op s) as [s'|e] eqn:H; simpl; [|done].
  destruct op as [[id v | id v | id] | id user name currency ib now | aid
                 | id user name ty | cid]; simpl in H.
  - by eapply insert_transaction_well_formed.
  - by eapply update_transaction_well_formed.
  - by eapply delete_transaction_well_formed.
  - by eapply handleAddAccount_well_formed.
  - by eapply delete_account_well_formed.
  - by eapply insert_category_well_formed.
  - by eapply delete_category_well_formed.
Qed.

Lemma run_all_well_formed ops s :
  well_formed s → well_formed (run_all ops s).
Proof.
  revert s. induction ops as [|op ops IH]; intros s Hwf; simpl; [done |].
  by apply IH, run_well_formed.
Qed.

Lemma well_formed_empty : well_formed empty_database.
Proof.
  split; [apply map_Forall_empty |].
  split; [apply map_Forall_empty |]. split; apply map_Forall_empty.
Qed.

(** The database [s1] of the scenario is reached by two statements. *)
Lemma scenario_s1_referential_integrity :
  referential_integrity Scenario.s1.
Proof.
  exact (proj1 (proj2 (run_all_well_formed
    [AddAccount Scenario.A Scenario.user "A" "USD" (Some 10000) 0;
     OnTransaction
       (Create Scenario.t1 (Scenario.values Scenario.A "income" 5000))]
    empty_database well_formed_empty))).
Qed.

(** ** What the Dashboard fetches and shows *)

#[local] Instance created_at_ascending_trans :
  Transitive created_at_ascending.
Proof. unfold created_at_ascending. intros x y z. lia. Qed.

#[local] Instance created_at_ascending_total : Total created_at_ascending.
Proof. unfold created_at_ascending. intros x y. lia. Qed.

Lemma visible_NoDup {A} (owner : A → uuid) uid (tbl : gmap N A) :
  NoDup (visible owner uid tbl).*1.
Proof.
  unfold visible.
  apply (sublist_NoDup _ (map_to_list tbl).*1);
    [apply NoDup_fst_map_to_list |].
  apply fmap_sublist, sublist_filter.
Qed.

(** X16. [fetchData] returns at most 50 transactions, each one a stored
    row of the user, no row twice, ordered by decreasing date; and it
    returns exactly the accounts of the user, ordered by creation
    time. *)
Theorem fetchData_rows uid s :
  (length (fetchData uid s).2 ≤ 50)%nat
  ∧ (∀ k t, (k, t) ∈ (fetchData uid s).2 →
            transactions s !! k = Some t ∧ t_user_id t = uid)
  ∧ StronglySorted date_descending (fetchData uid s).2
  ∧ NoDup (fetchData uid s).2.*1
  ∧ (∀ k r, (k, r) ∈ (fetchData uid s).1 ↔
            accounts s !! k = Some r ∧ a_user_id r = uid)
  ∧ StronglySorted created_at_ascending (fetchData uid s).1.
Proof.
  unfold fetchData. cbn [fst snd]. split; [|split; [|split; [|split; [|split]]]].
  - rewrite length_take. lia.
  - intros k t Hin. apply visible_lookup.
    apply subseteq_take in Hin. unfold transactions_by_date in Hin.
    by rewrite merge_sort_Permutation in Hin.
  - apply (StronglySorted_app_1_l _ _ (drop 50 (transactions_by_date uid s))).
    rewrite take_drop. apply (StronglySorted_merge_sort _).
  - eapply sublist_NoDup; [|apply fmap_sublist, sublist_take].
    unfold transactions_by_date. rewrite merge_sort_Permutation.
    apply visible_NoDup.
  - intros k r. rewrite merge_sort_Permutation. apply visible_lookup.
  - apply (StronglySorted_merge_sort _).
Qed.

Lemma fetchData_rows_witness :
  (length (fetchData Scenario.user Scenario.many).2 ≤ 50)%nat
  ∧ (∀ k t, (k, t) ∈ (fetchData Scenario.user Scenario.many).2 →
            transactions Scenario.many !! k = Some t
            ∧ t_user_id t = Scenario.user)
  ∧ StronglySorted date_descending (fetchData Scenario.user Scenario.many).2
  ∧ NoDup (fetchData Scenario.user Scenario.many).2.*1
  ∧ (∀ k r, (k, r) ∈ (fetchData Scenario.user Scenario.many).1 ↔
            accounts Scenario.many !! k = Some r
            ∧ a_user_id r = Scenario.user)
  ∧ StronglySorted created_at_ascending
      (fetchData Scenario.user Scenario.many).1.
Proof. apply (fetchData_rows Scenario.user Scenario.many). Defined.

Lemma fetched_all uid s :
  (length (visible t_user_id uid (transactions s)) ≤ 50)%nat →
  (fetchData uid s).2 ≡ₚ visible t_user_id uid (transactions s)
  ∧ not_fetched uid s = [].
Proof.
  intros Hlen.
  assert (length (transactions_by_date uid s) ≤ 50)%nat as Hl.
  { unfold transactions_by_date. by rewrite merge_sort_Permutation. }
  unfold fetchData, not_fetched. cbn [snd].
  rewrite take_ge, drop_ge by done. split; [|done].
  apply merge_sort_Permutation.
Qed.

(** X17. For a user with at most 50 transactions nothing is left
    behind: [fetchData] returns all the transactions of the user, by
    decreasing date, and Total Income and Total Expenses are the doubles
    obtained by adding, from [0] and in that order, the amounts of all
    the (selected) transactions of the user of the type. *)
Theorem dashboard_totals_complete uid s sel :
  (length (visible t_user_id uid (transactions s)) ≤ 50)%nat →
  let persisted := visible t_user_id uid (transactions s) in
  let all := transactions_by_date uid s in
  let T := calculateTotals (fetchData uid s).1 (fetchData uid s).2 sel in
  not_fetched uid s = []
  ∧ (fetchData uid s).2 = all
  ∧ all ≡ₚ persisted
  ∧ StronglySorted date_descending all
  ∧ totalIncome T
    = sum_of_doubles (amounts_of_type income (selected_rows sel all))
  ∧ totalExpenses T
    = sum_of_doubles (amounts_of_type expense (selected_rows sel all)).
Proof.
  intros Hlen persisted all T. destruct (fetched_all uid s Hlen) as [_ Hnil].
  assert (length all ≤ 50)%nat as Hl.
  { subst all. unfold transactions_by_date.
    by rewrite merge_sort_Permutation. }
  assert ((fetchData uid s).2 = all) as Hall.
  { unfold fetchData. cbn [snd]. by apply take_ge. }
  split; [done |]. split; [done |].
  split; [apply merge_sort_Permutation |].
  split; [apply (StronglySorted_merge_sort _) |].
  subst T. rewrite Hall. split; apply reduce_amounts.
Qed.

Lemma dashboard_totals_complete_witness :
  let uid := Scenario.user in
  let s := Scenario.s2 in
  let persisted := visible t_user_id uid (transactions s) in
  let all := transactions_by_date uid s in
  let T := calculateTotals (fetchData uid s).1 (fetchData uid s).2 None in
  (totalIncome T = 50%float ∧ totalExpenses T = 30%float)
  ∧ not_fetched uid s = []
  ∧ (fetchData uid s).2 = all
  ∧ all ≡ₚ persisted
  ∧ StronglySorted date_descending all
  ∧ totalIncome T
    = sum_of_doubles (amounts_of_type income (selected_rows None all))
  ∧ totalExpenses T
    = sum_of_doubles (amounts_of_type expense (selected_rows None all)).
Proof.
  intros uid s persisted all T.
  split; [split; vm_compute; reflexivity |].
  apply (dashboard_totals_complete Scenario.user Scenario.s2 None).
  vm_compute. lia.
Defined.










(** The cards themselves need not add up: with incomes of [0.10] and
    [0.20] on an account opened with [0.00], Total Income is the double
    [0.1 + 0.2 = 0.30000000000000004] and Total Balance the double
    [0.3]. *)
Example dashboard_cards_differ :
  let d := fetchData Cases.alice Cases.tenths in
  let T := calculateTotals d.1 d.2 (Some Scenario.A) in
  accounts Cases.tenths !! Scenario.A = Some Cases.row_tenths
  ∧ amounts_of_type income d.2 ≡ₚ [10; 20]
  ∧ totalIncome T = 0x1.3333333333334p-2%float
  ∧ totalExpenses T = 0%float
  ∧ totalBalance T = 0x1.3333333333333p-2%float
  ∧ PrimFloat.eqb (PrimFloat.sub (PrimFloat.add 0%float (totalIncome T))
                     (totalExpenses T))
      (totalBalance T) = false.
Proof.
  split; [vm_compute; reflexivity |].
  split.
  { replace (amounts_of_type income
               (fetchData Cases.alice Cases.tenths).2) with [20; 10]
      by (vm_compute; reflexivity).
    apply Permutation_swap. }
  split; [vm_compute; reflexivity |].
  split; [vm_compute; reflexivity |].
  split; vm_compute; reflexivity.
Qed.



(** ** Round trips and order of statements *)

(** X20. Deleting an account right after creating it gives back the
    database as it was before the creation. *)
Theorem add_then_delete_account id user name currency ib now s s1 :
  referential_integrity s →
  handleAddAccount id user name currency ib now s = OK s1 →
  delete_account id s1 = OK s.
Proof.
  intros Hri H. unfold handleAddAccount in H.
  apply bind_OK in H as (b & _ & H). apply bind_OK in H as (b' & _ & H).
  destruct (accounts s !! id) eqn:Hid; [done |]. injection H as <-.
  rewrite delete_account_OK by (simpl; rewrite lookup_insert_eq; eauto).
  simpl. f_equal. destruct s as [accs cats txs]. simpl in *. f_equal.
  - by apply delete_insert_id.
  - apply map_filter_id. intros k t Ht. simpl. intros Heq.
    destruct (Hri k t Ht) as [[r Hr] _]. simpl in Hr. congruence.
Qed.

Lemma add_then_delete_account_witness :
  delete_account Scenario.B Scenario.sAB = OK Scenario.s1.
Proof.
  apply (add_then_delete_account Scenario.B Scenario.user "B" "USD"
           (Some 2000) 1 Scenario.s1 Scenario.sAB).
  - exact scenario_s1_referential_integrity.
  - vm_compute. reflexivity.
Defined.

(** X21. Deleting a category right after creating it gives back the
    database as it was before the creation. *)
Theorem add_then_delete_category id user name ty s s1 :
  referential_integrity s →
  insert_category id user name ty s = OK s1 →
  delete_category id s1 = OK s.
Proof.
  intros Hri H. unfold insert_category in H.
  destruct (categories s !! id) eqn:Hid; [done |]. injection H as <-.
  assert (∀ k t, transactions s !! k = Some t → category_id t ≠ Some id)
    as Hfresh.
  { intros k t Ht Hc. destruct (Hri k t Ht) as [_ H2].
    destruct (H2 id Hc) as [c Hc']. congruence. }
  unfold delete_category. simpl. rewrite lookup_insert_eq.
  assert (filter (λ kt : N * transaction, category_id kt.2 = Some id)
            (transactions s) = ∅) as ->.
  { apply map_empty. intros k. apply map_lookup_filter_None. right.
    intros t Ht. simpl. by apply (Hfresh k t). }
  rewrite map_to_list_empty. simpl. f_equal.
  destruct s as [accs cats txs]. simpl in *. f_equal.
  - by apply delete_insert_id.
  - apply map_eq. intros k. rewrite lookup_fmap.
    destruct (txs !! k) as [t|] eqn:Ht; simpl; [|done].
    unfold set_null. rewrite decide_False; [done | by apply (Hfresh k t)].
Qed.

Lemma add_then_delete_category_witness :
  delete_category Scenario.C Scenario.sC = OK Scenario.s1.
Proof.
  apply (add_then_delete_category Scenario.C Scenario.user "Food" expense
           Scenario.s1 Scenario.sC).
  - exact scenario_s1_referential_integrity.
  - vm_compute. reflexivity.
Defined.

(** X22. The order in which two transactions are created does not
    matter: when both orders go through, they end in the same database,
    with the same balances. *)
Theorem insert_transaction_commute id1 v1 id2 v2 s s1 s12 s2 s21 :
  insert_transaction id1 v1 s = OK s1 →
  insert_transaction id2 v2 s1 = OK s12 →
  insert_transaction id2 v2 s = OK s2 →
  insert_transaction id1 v1 s2 = OK s21 →
  s12 = s21.
Proof.
  intros
    (ty1 & m1 & Hty1 & Hm1 & _ & Hid1 & _ & Htg1 & Hc1 & Htx1)%
      insert_transaction_OK
    (ty2 & m2 & Hty2 & Hm2 & _ & Hid2 & _ & Htg2 & Hc2 & Htx2)%
      insert_transaction_OK
    (ty2' & m2' & Hty2' & Hm2' & _ & Hid2' & _ & Htg2' & Hc2' & Htx2')%
      insert_transaction_OK
    (ty1' & m1' & Hty1' & Hm1' & _ & Hid1' & _ & Htg1' & Hc1' & Htx1')%
      insert_transaction_OK.
  assert (ty1' = ty1) as -> by congruence.
  assert (m1' = m1) as -> by congruence.
  assert (ty2' = ty2) as -> by congruence.
  assert (m2' = m2) as -> by congruence.
  assert (id1 ≠ id2) as Hne.
  { intros ->. rewrite Htx1, lookup_insert_eq in Hid2. done. }
  pose proof (update_account_balance_OK _ _ _ Htg1) as H1.
  pose proof (update_account_balance_OK _ _ _ Htg2) as H2.
  pose proof (update_account_balance_OK _ _ _ Htg2') as H2'.
  pose proof (update_account_balance_OK _ _ _ Htg1') as H1'.
  destruct s12 as [a12 c12 t12], s21 as [a21 c21 t21]. simpl in *. f_equal.
  - apply map_eq. intros a.
    rewrite H2, H1, H1', H2', !fmap_adjust_adjust. do 2 f_equal. lia.
  - congruence.
  - rewrite Htx2, Htx1, Htx1', Htx2'. by apply insert_insert_ne.
Qed.

Lemma insert_transaction_commute_witness :
  let v1 := Scenario.values Scenario.A "income" 5000 in
  let v2 := Scenario.values Scenario.A "expense" 3000 in
  let s2' := commit Scenario.s0
               (insert_transaction Scenario.t2 v2 Scenario.s0) in
  let s21 := commit s2' (insert_transaction Scenario.t1 v1 s2') in
  balance_of Scenario.A s2' = Some 7000 ∧ Scenario.s2 = s21.
Proof.
  intros v1 v2 s2' s21. split; [vm_compute; reflexivity |].
  apply (insert_transaction_commute Scenario.t1 v1 Scenario.t2 v2
           Scenario.s0 Scenario.s1 Scenario.s2 s2' s21);
    vm_compute; reflexivity.
Defined.

(** ** User names *)

Lemma length_append (s1 s2 : string) :
  String.length (s1 +:+ s2) = (String.length s1 + String.length s2)%nat.
Proof. induction s1 as [|a s1 IH]; simpl; [done | by rewrite IH]. Qed.

(** X23. Distinct user names get distinct sign-in addresses: the
    address [fakeEmail] derives from a user name determines the user
    name, so [signIn] addresses the account [signUp] made for that name
    and no other. *)
Theorem fakeEmail_inj u1 u2 : fakeEmail u1 = fakeEmail u2 → u1 = u2.
Proof.
  unfold fakeEmail. generalize ".user@example.com". intros s.
  revert u2. induction u1 as [|a u1 IH]; intros [|b u2] H.
  - done.
  - apply (f_equal String.length) in H.
    rewrite !length_append in H. simpl in H. lia.
  - apply (f_equal String.length) in H.
    rewrite !length_append in H. simpl in H. lia.
  - change (String a (u1 +:+ s) = String b (u2 +:+ s)) in H.
    injection H as -> H. f_equal. by apply IH.
Qed.

Lemma fakeEmail_inj_witness :
  fakeEmail "ann" = "ann.user@example.com" ∧ "ann" = "ann".
Proof.
  split; [reflexivity |].
  apply (fakeEmail_inj "ann" "ann"). reflexivity.
Defined.

(** * Statements on a database without [NaN]

    On the image of [embed], and for supplied amounts other than
    ['NaN'], the statements of [WithNaN] do what the statements on
    numbers do. *)

Lemma embed_numbers_of s :
  WithNaN.stores_numbers s → embed (numbers_of s) = s.
Proof.
  intros [Ha Ht]. destruct s as [accs cats txs].
  unfold embed, numbers_of. simpl in *. f_equal.
  - rewrite <- map_fmap_compose. apply map_eq. intros k.
    rewrite lookup_fmap. destruct (accs !! k) as [r|] eqn:Hr; [|done].
    simpl. f_equal. destruct (Ha k r Hr) as [Hi Hc].
    destruct r as [? ? ? [i|] [c|] ?]; simpl in *; done.
  - rewrite <- map_fmap_compose. apply map_eq. intros k.
    rewrite lookup_fmap. destruct (txs !! k) as [t|] eqn:Hk; [|done].
    simpl. f_equal. pose proof (Ht k t Hk) as Hm.
    destruct t as [? ? ? ? [m|] ?]; simpl in *; done.
Qed.

Lemma stores_numbers_embed s : WithNaN.stores_numbers (embed s).
Proof.
  split; intros k r; simpl; rewrite lookup_fmap; intros Hr;
    destruct (_ !! k); simplify_eq/=; done.
Qed.

Lemma sum_map_embed {A B} (f : A → B) (g : B → WithNaN.numeric)
    (h : A → Z) (m : gmap N A) :
  (∀ x, g (f x) = WithNaN.Num (h x)) →
  WithNaN.sum_map g (f <$> m) = WithNaN.Num (sum_map h m).
Proof.
  intros Hg. unfold WithNaN.sum_map, sum_map.
  rewrite map_fold_fmap, !map_fold_foldr.
  induction (map_to_list m) as [|[k x] l IH]; simpl; [done |].
  by rewrite IH, Hg.
Qed.

Lemma contribution_embed a t :
  WithNaN.contribution a (embed_transaction t)
  = WithNaN.Num (contribution a t).
Proof.
  unfold WithNaN.contribution, contribution. simpl.
  case_decide; [|done]. by destruct (type t).
Qed.

Lemma signed_sum_embed a s :
  WithNaN.signed_sum a (embed s) = WithNaN.Num (signed_sum a s).
Proof. apply sum_map_embed, contribution_embed. Qed.

Lemma balance_invariant_embed s :
  WithNaN.balance_invariant (embed s) ↔ balance_invariant s.
Proof.
  split.
  - intros H a r Hr. specialize (H a (embed_account r)). simpl in H.
    rewrite lookup_fmap, Hr, signed_sum_embed in H.
    specialize (H eq_refl). simpl in H. by injection H.
  - intros H a r'. simpl. rewrite lookup_fmap.
    destruct (accounts s !! a) as [r|] eqn:Hr; [|done].
    intros [= <-]. simpl. rewrite signed_sum_embed. simpl.
    f_equal. by apply H.
Qed.

Lemma case_add_embed ty m b :
  WithNaN.add (WithNaN.Num b) <$> WithNaN.case_type ty (WithNaN.Num m)
  = WithNaN.Num <$> (Z.add b <$> case_type ty m).
Proof. by destruct ty. Qed.

Lemma case_sub_embed ty m b :
  WithNaN.sub (WithNaN.Num b) <$> WithNaN.case_type ty (WithNaN.Num m)
  = WithNaN.Num <$> (Z.sub b <$> case_type ty m).
Proof. by destruct ty. Qed.

Lemma update_accounts_embed (e' : WithNaN.numeric → option WithNaN.numeric)
    (e : Z → option Z) aid (accs : gmap N account) :
  (∀ b, e' (WithNaN.Num b) = WithNaN.Num <$> e b) →
  WithNaN.update_accounts e' aid (embed_account <$> accs)
  = result_map (fmap embed_account) (update_accounts e aid accs).
Proof.
  intros He. unfold WithNaN.update_accounts, update_accounts.
  rewrite lookup_fmap. destruct (accs !! aid) as [r|]; simpl; [|done].
  rewrite He. destruct (e (current_balance r)) as [v|]; simpl; [|done].
  unfold numeric_15_2. case_decide; simpl; [|done].
  by rewrite fmap_insert.
Qed.

Lemma update_account_balance_embed ev (accs : gmap N account) :
  WithNaN.update_account_balance (embed_event ev) (embed_account <$> accs)
  = result_map (fmap embed_account) (update_account_balance ev accs).
Proof.
  destruct ev as [NEW | OLD NEW | OLD]; simpl.
  - apply update_accounts_embed. intros b. apply case_add_embed.
  - rewrite (update_accounts_embed _
               (λ b, Z.sub b <$> case_type (type OLD) (amount OLD)))
      by (intros b; apply case_sub_embed).
    destruct (update_accounts _ (account_id OLD) accs) as [accs1|e];
      simpl; [|done].
    apply update_accounts_embed. intros b. apply case_add_embed.
  - apply update_accounts_embed. intros b. apply case_sub_embed.
Qed.

Lemma update_account_balance_trigger_embed evs (accs : gmap N account) :
  WithNaN.update_account_balance_trigger (embed_event <$> evs)
    (embed_account <$> accs)
  = result_map (fmap embed_account)
      (update_account_balance_trigger evs accs).
Proof.
  revert accs. induction evs as [|ev evs IH]; intros accs; simpl; [done |].
  rewrite update_account_balance_embed.
  destruct (update_account_balance ev accs) as [accs1|e]; simpl; [|done].
  apply IH.
Qed.

#[local] Arguments WithNaN.update_account_balance : simpl never.
#[local] Arguments update_account_balance : simpl never.
#[local] Arguments WithNaN.update_account_balance_trigger : simpl never.
#[local] Arguments update_account_balance_trigger : simpl never.

Lemma numeric_15_2_in_numbers v :
  v ≠ Some WithNaN.Not_a_number →
  WithNaN.numeric_15_2_in v
  = result_map WithNaN.Num (numeric_15_2_not_null (number_of_literal <$> v)).
Proof.
  intros Hv. destruct v as [[z | | ]|]; simpl; try done.
  unfold numeric_15_2. by case_decide.
Qed.

Lemma references_embed {A B} (f : A → B) (tbl : gmap N A) k :
  references (f <$> tbl) k = references tbl k.
Proof. unfold references. rewrite lookup_fmap. by destruct (tbl !! k). Qed.

Lemma insert_transaction_embed id v s :
  WithNaN.v_amount v ≠ Some WithNaN.Not_a_number →
  WithNaN.insert_transaction id v (embed s)
  = result_map embed (insert_transaction id (numbers_of_values v) s).
Proof.
  intros Hv. unfold WithNaN.insert_transaction, insert_transaction. simpl.
  destruct (transaction_type_in (WithNaN.v_type v)) as [ty|e]; simpl;
    [|done].
  rewrite (numeric_15_2_in_numbers _ Hv).
  destruct (numeric_15_2_not_null _) as [m|e]; simpl; [|done].
  rewrite lookup_fmap. destruct (transactions s !! id); simpl; [done |].
  rewrite references_embed.
  destruct (references (accounts s) _); simpl; [|done].
  destruct (references_opt (categories s) _); simpl; [|done].
  change (WithNaN.row v ty (WithNaN.Num m))
    with (embed_transaction (row (numbers_of_values v) ty m)).
  change (WithNaN.TG_INSERT
            (embed_transaction (row (numbers_of_values v) ty m)))
    with (embed_event (TG_INSERT (row (numbers_of_values v) ty m))).
  rewrite update_account_balance_embed.
  destruct (update_account_balance _ (accounts s)) as [accs|e]; simpl;
    [|done].
  unfold embed. simpl. by rewrite fmap_insert.
Qed.

Lemma update_transaction_embed id v s :
  WithNaN.v_amount v ≠ Some WithNaN.Not_a_number →
  WithNaN.update_transaction id v (embed s)
  = result_map embed (update_transaction id (numbers_of_values v) s).
Proof.
  intros Hv. unfold WithNaN.update_transaction, update_transaction. simpl.
  rewrite lookup_fmap. destruct (transactions s !! id) as [OLD|]; simpl;
    [|done].
  destruct (transaction_type_in (WithNaN.v_type v)) as [ty|e]; simpl;
    [|done].
  rewrite (numeric_15_2_in_numbers _ Hv).
  destruct (numeric_15_2_not_null _) as [m|e]; simpl; [|done].
  rewrite references_embed.
  destruct (if decide (WithNaN.v_account_id v = account_id OLD)
            then OK () else references (accounts s) (WithNaN.v_account_id v));
    simpl; [|done].
  destruct (if decide (WithNaN.v_category_id v = category_id OLD)
            then OK ()
            else references_opt (categories s) (WithNaN.v_category_id v));
    simpl; [|done].
  change (WithNaN.row v ty (WithNaN.Num m))
    with (embed_transaction (row (numbers_of_values v) ty m)).
  change (WithNaN.TG_UPDATE (embed_transaction OLD)
            (embed_transaction (row (numbers_of_values v) ty m)))
    with (embed_event (TG_UPDATE OLD (row (numbers_of_values v) ty m))).
  rewrite update_account_balance_embed.
  destruct (update_account_balance _ (accounts s)) as [accs|e]; simpl;
    [|done].
  unfold embed. simpl. by rewrite fmap_insert.
Qed.

Lemma delete_transaction_embed id s :
  WithNaN.delete_transaction id (embed s)
  = result_map embed (delete_transaction id s).
Proof.
  unfold WithNaN.delete_transaction, delete_transaction. simpl.
  rewrite lookup_fmap. destruct (transactions s !! id) as [OLD|]; simpl;
    [|done].
  change (WithNaN.TG_DELETE (embed_transaction OLD))
    with (embed_event (TG_DELETE OLD)).
  rewrite update_account_balance_embed.
  destruct (update_account_balance _ (accounts s)) as [accs|e]; simpl;
    [|done].
  unfold embed. simpl. by rewrite fmap_delete.
Qed.

Lemma statement_embed op s :
  WithNaN.supplies_no_NaN op →
  WithNaN.statement op (embed s)
  = result_map embed (statement (numbers_of_operation op) s).
Proof.
  destruct op as [id v | id v | id]; simpl; intros Hv.
  - by apply insert_transaction_embed.
  - by apply update_transaction_embed.
  - apply delete_transaction_embed.
Qed.

Lemma commit_embed s r :
  WithNaN.commit (embed s) (result_map embed r) = embed (commit s r).
Proof. by destruct r. Qed.

Lemma history_embed ops s :
  Forall WithNaN.supplies_no_NaN ops →
  WithNaN.history ops (embed s)
  = embed <$> history (numbers_of_operation <$> ops) s.
Proof.
  intros Hops. revert s.
  induction Hops as [|op ops Hop _ IH]; intros s; simpl; [done |].
  rewrite (statement_embed _ _ Hop), commit_embed. f_equal. apply IH.
Qed.

Lemma filter_embed (P : N * WithNaN.transaction → Prop)
    (Q : N * transaction → Prop)
    `{!∀ x, Decision (P x)} `{!∀ x, Decision (Q x)}
    (m : gmap N transaction) :
  (∀ k t, P (k, embed_transaction t) ↔ Q (k, t)) →
  filter P (embed_transaction <$> m) = embed_transaction <$> filter Q m.
Proof.
  intros HPQ. rewrite map_filter_fmap. f_equal.
  apply map_filter_ext. intros i x _. apply HPQ.
Qed.

Lemma map_to_list_embed {A B} (f : A → B) (m : gmap N A) :
  (map_to_list (f <$> m)).*2 = f <$> (map_to_list m).*2.
Proof.
  rewrite map_to_list_fmap, <- !list_fmap_compose.
  apply list_fmap_ext. by intros i [k x] _.
Qed.

Lemma set_null_embed cid t :
  WithNaN.set_null cid (embed_transaction t)
  = embed_transaction (set_null cid t).
Proof. unfold WithNaN.set_null, set_null. simpl. by case_decide. Qed.

Lemma delete_account_embed aid s :
  WithNaN.delete_account aid (embed s)
  = result_map embed (delete_account aid s).
Proof.
  unfold WithNaN.delete_account, delete_account. simpl.
  rewrite lookup_fmap. destruct (accounts s !! aid); simpl; [|done].
  assert (filter (λ kt : N * WithNaN.transaction,
                    WithNaN.account_id kt.2 = aid)
            (embed_transaction <$> transactions s)
          = embed_transaction
              <$> filter (λ kt : N * transaction, account_id kt.2 = aid)
                    (transactions s)) as ->.
  { by apply filter_embed. }
  assert (filter (λ kt : N * WithNaN.transaction,
                    WithNaN.account_id kt.2 ≠ aid)
            (embed_transaction <$> transactions s)
          = embed_transaction
              <$> filter (λ kt : N * transaction, account_id kt.2 ≠ aid)
                    (transactions s)) as ->.
  { by apply filter_embed. }
  rewrite map_to_list_embed, <- fmap_delete, <- list_fmap_compose.
  rewrite (list_fmap_compose TG_DELETE embed_event).
  rewrite update_account_balance_trigger_embed.
  by destruct (update_account_balance_trigger _ _).
Qed.

Lemma delete_category_embed cid s :
  WithNaN.delete_category cid (embed s)
  = result_map embed (delete_category cid s).
Proof.
  unfold WithNaN.delete_category, delete_category. simpl.
  destruct (categories s !! cid); simpl; [|done].
  assert (filter (λ kt : N * WithNaN.transaction,
                    WithNaN.category_id kt.2 = Some cid)
            (embed_transaction <$> transactions s)
          = embed_transaction
              <$> filter (λ kt : N * transaction,
                            category_id kt.2 = Some cid)
                    (transactions s)) as ->.
  { by apply filter_embed. }
  rewrite map_to_list_embed, <- list_fmap_compose.
  rewrite (list_fmap_ext
             ((λ t, WithNaN.TG_UPDATE t (WithNaN.set_null cid t))
                ∘ embed_transaction)
             (embed_event ∘ (λ t, TG_UPDATE t (set_null cid t))))
    by (intros i t _; simpl; by rewrite set_null_embed).
  rewrite list_fmap_compose.
  rewrite update_account_balance_trigger_embed.
  destruct (update_account_balance_trigger _ _); simpl; [|done].
  unfold embed. simpl. do 2 f_equal.
  rewrite <- !map_fmap_compose. apply map_fmap_ext.
  intros k t _. simpl. apply set_null_embed.
Qed.

Lemma insert_category_embed id user name ty s :
  WithNaN.insert_category id user name ty (embed s)
  = result_map embed (insert_category id user name ty s).
Proof.
  unfold WithNaN.insert_category, insert_category. simpl.
  by destruct (categories s !! id).
Qed.

Lemma handleAddAccount_embed id user name currency x now s :
  WithNaN.commit (embed s)
    (WithNaN.handleAddAccount id user name currency x now (embed s))
  = embed (commit s
             (handleAddAccount id user name currency (number_of_parsed x)
                now s)).
Proof.
  unfold WithNaN.handleAddAccount, handleAddAccount.
  destruct x as [z| |]; simpl.
  - unfold numeric_15_2. case_decide; simpl; [|done].
    rewrite lookup_fmap. destruct (accounts s !! id); simpl; [done |].
    unfold embed. simpl. by rewrite fmap_insert.
  - rewrite lookup_fmap. destruct (accounts s !! id); simpl; [done |].
    unfold embed. simpl. by rewrite fmap_insert.
  - done.
Qed.

Lemma run_embed op s :
  WithNaN.amounts_are_numbers op →
  WithNaN.commit (embed s) (WithNaN.run op (embed s))
  = embed (commit s (run (numbers_of_db_operation op) s)).
Proof.
  destruct op as [op | id user name currency x now | aid | id user name ty
                 | cid]; simpl; intros Hop.
  - by rewrite (statement_embed _ _ Hop), commit_embed.
  - apply handleAddAccount_embed.
  - by rewrite delete_account_embed, commit_embed.
  - by rewrite insert_category_embed, commit_embed.
  - by rewrite delete_category_embed, commit_embed.
Qed.

Lemma run_all_embed ops s :
  Forall WithNaN.amounts_are_numbers ops →
  WithNaN.run_all ops (embed s)
  = embed (run_all (numbers_of_db_operation <$> ops) s).
Proof.
  intros Hops. revert s.
  induction Hops as [|op ops Hop _ IH]; intros s; [done |].
  cbn [WithNaN.run_all run_all fmap list_fmap].
  rewrite (run_embed _ _ Hop). apply IH.
Qed.

Lemma referential_integrity_embed s :
  referential_integrity s → WithNaN.referential_integrity (embed s).
Proof.
  intros H k t'. simpl. rewrite lookup_fmap.
  destruct (transactions s !! k) as [t|] eqn:Ht; [|done].
  intros [= <-]. simpl. destruct (H k t Ht) as [Ha Hc].
  split; [|done]. rewrite lookup_fmap. destruct Ha as [r ->]. by eexists.
Qed.

Lemma columns_in_range_embed s :
  columns_in_range s → WithNaN.columns_in_range (embed s).
Proof.
  intros [Ha Ht]. split; intros k x; simpl; rewrite lookup_fmap.
  - destruct (accounts s !! k) as [r|] eqn:Hr; [|done].
    intros [= <-]. simpl. by apply (Ha k r).
  - destruct (transactions s !! k) as [t|] eqn:Hk; [|done].
    intros [= <-]. simpl. by apply (Ht k t).
Qed.

(** * With [NaN]: the balance after creations, updates and deletions *)

(** C1, as stated, fails: a transaction of amount ['NaN'] is created
    on an account of [initial_balance = 100.00], which sets
    [current_balance] to [NaN], and is then deleted; both statements
    complete, no transaction is left, and [current_balance] is [NaN] and
    not [100.00 + 0]. *)
Lemma balance_invariant_broken_by_NaN :
  WithNaN.stores_numbers NaNCase.s0
  ∧ WithNaN.balance_invariant NaNCase.s0
  ∧ WithNaN.history
      [WithNaN.Create NaNCase.t1
         (NaNCase.values NaNCase.A "income" WithNaN.Not_a_number);
       WithNaN.Delete NaNCase.t1] NaNCase.s0
    = [NaNCase.s1; NaNCase.s2]
  ∧ is_OK NaNCase.r1 ∧ is_OK NaNCase.r2
  ∧ WithNaN.balance_of NaNCase.A NaNCase.s1 = Some WithNaN.NaN
  ∧ WithNaN.transactions NaNCase.s2 = ∅
  ∧ WithNaN.initial_balance <$> WithNaN.accounts NaNCase.s2 !! NaNCase.A
    = Some (WithNaN.Num 10000)
  ∧ WithNaN.signed_sum NaNCase.A NaNCase.s2 = WithNaN.Num 0
  ∧ WithNaN.balance_of NaNCase.A NaNCase.s2 = Some WithNaN.NaN
  ∧ ¬ WithNaN.balance_invariant NaNCase.s2.
Proof.
  split; [apply (bool_decide_unpack _); vm_compute; exact I |].
  split; [apply (bool_decide_unpack _); vm_compute; exact I |].
  split; [reflexivity |].
  split; [vm_compute; exact I |].
  split; [vm_compute; exact I |].
  split; [vm_compute; reflexivity |].
  split; [vm_compute; reflexivity |].
  split; [vm_compute; reflexivity |].
  split; [vm_compute; reflexivity |].
  split; [vm_compute; reflexivity |].
  intros H.
  assert (WithNaN.accounts NaNCase.s2 !! NaNCase.A
          = Some {| WithNaN.a_user_id := NaNCase.user;
                    WithNaN.a_name := "A"; WithNaN.a_currency := "USD";
                    WithNaN.initial_balance := WithNaN.Num 10000;
                    WithNaN.current_balance := WithNaN.NaN;
                    WithNaN.a_created_at := 0 |}) as Hr
    by (vm_compute; reflexivity).
  specialize (H _ _ Hr). vm_compute in H. discriminate H.
Qed.

(** C1, amended. Starting from a database that holds no [NaN] and in which every
    account satisfies [current_balance = initial_balance + Σ signed
    contributions of the transactions referencing it], and for any
    finite sequence of transaction creations, updates and deletions none
    of which supplies ['NaN'] as an amount, the database [s'] reached
    after each operation holds no [NaN] and every account [A] of it
    satisfies the same equation (an operation that fails leaves the
    database as it was). *)
Theorem balance_invariant_history (s : WithNaN.database) ops :
  WithNaN.stores_numbers s →
  WithNaN.balance_invariant s →
  Forall WithNaN.supplies_no_NaN ops →
  ∀ s', s' ∈ WithNaN.history ops s →
    WithNaN.stores_numbers s'
    ∧ ∀ A r, WithNaN.accounts s' !! A = Some r →
        WithNaN.current_balance r
        = WithNaN.add (WithNaN.initial_balance r) (WithNaN.signed_sum A s').
Proof.
  intros Hnum Hinv Hops s' Hs'.
  rewrite <- (embed_numbers_of s Hnum) in Hinv, Hs'.
  rewrite (history_embed _ _ Hops) in Hs'.
  apply list_elem_of_fmap in Hs' as (s0' & -> & Hs0').
  split; [apply stores_numbers_embed |].
  apply balance_invariant_embed.
  pose proof (history_invariant (numbers_of s)
                (numbers_of_operation <$> ops)) as Hall.
  rewrite Forall_forall in Hall. apply Hall; [|done].
  by apply balance_invariant_embed.
Qed.

Lemma balance_invariant_history_witness :
  (WithNaN.stores_numbers NaNCase.s0 ∧ WithNaN.balance_invariant NaNCase.s0)
  ∧ WithNaN.stores_numbers NaNCase.n2
  ∧ ∀ A r, WithNaN.accounts NaNCase.n2 !! A = Some r →
      WithNaN.current_balance r
      = WithNaN.add (WithNaN.initial_balance r)
          (WithNaN.signed_sum A NaNCase.n2).
Proof.
  assert (WithNaN.stores_numbers NaNCase.s0) as Hnum.
  { apply (bool_decide_unpack _). vm_compute. exact I. }
  assert (WithNaN.balance_invariant NaNCase.s0) as H0.
  { apply (bool_decide_unpack _). vm_compute. exact I. }
  split; [exact (conj Hnum H0) |].
  apply (balance_invariant_history NaNCase.s0
           [WithNaN.Create NaNCase.t1
              (NaNCase.values NaNCase.A "income" (WithNaN.Decimal 5000));
            WithNaN.Delete NaNCase.t1]).
  - exact Hnum.
  - exact H0.
  - repeat constructor. simpl. discriminate.
  - apply list_elem_of_further. apply list_elem_of_here.
Defined.

(** * With [NaN]: deletion after creation *)

Lemma case_type_signed_numeric ty m :
  WithNaN.case_type ty m = Some (WithNaN.signed ty m).
Proof. by destruct ty. Qed.

Lemma set_current_balance_same (r : WithNaN.account) v :
  WithNaN.current_balance r = v → WithNaN.set_current_balance v r = r.
Proof. intros <-. by destruct r. Qed.

Lemma set_current_balance_twice (r : WithNaN.account) v w :
  WithNaN.set_current_balance v (WithNaN.set_current_balance w r)
  = WithNaN.set_current_balance v r.
Proof. done. Qed.

(** What is left of a balance once a number has been added to it and
    taken from it again. *)
Lemma add_sub_number b z ty :
  WithNaN.sub (WithNaN.add b (WithNaN.signed ty (WithNaN.Num z)))
    (WithNaN.signed ty (WithNaN.Num z)) = b.
Proof. destruct b as [b|], ty; simpl; [f_equal; lia.. | done | done]. Qed.

(** C4, as stated, fails: a transaction of amount ['NaN'] is created on
    an account of balance [100.00] and then deleted; both statements
    complete, and the balance of the account is [NaN], not the [100.00]
    it was before the creation. *)
Lemma delete_after_create_of_NaN :
  WithNaN.insert_transaction NaNCase.t1
    (NaNCase.values NaNCase.A "income" WithNaN.Not_a_number) NaNCase.s0
  = OK NaNCase.s1
  ∧ WithNaN.delete_transaction NaNCase.t1 NaNCase.s1 = OK NaNCase.s2
  ∧ WithNaN.balance_of NaNCase.A NaNCase.s0 = Some (WithNaN.Num 10000)
  ∧ WithNaN.balance_of NaNCase.A NaNCase.s2 = Some WithNaN.NaN
  ∧ WithNaN.balance_of NaNCase.A NaNCase.s2
    ≠ WithNaN.balance_of NaNCase.A NaNCase.s0
  ∧ WithNaN.transactions NaNCase.s2 = WithNaN.transactions NaNCase.s0.
Proof.
  split; [vm_compute; reflexivity |].
  split; [vm_compute; reflexivity |].
  split; [vm_compute; reflexivity |].
  split; [vm_compute; reflexivity |].
  split; [vm_compute; discriminate |].
  vm_compute. reflexivity.
Qed.

(** C4, amended. Creating a transaction whose amount is not ['NaN'] and then
    deleting it restores the balance of its account, and of every other
    account, to the value it had before the creation: the deletion
    succeeds and gives back the database the creation started from
    (whose balances are values of their column, [NaN] included). *)
Theorem delete_inverts_create (s : WithNaN.database) id v s1 :
  WithNaN.balances_in_range s →
  WithNaN.v_amount v ≠ Some WithNaN.Not_a_number →
  WithNaN.insert_transaction id v s = OK s1 →
  ∃ s2, WithNaN.delete_transaction id s1 = OK s2
        ∧ (∀ a, WithNaN.balance_of a s2 = WithNaN.balance_of a s)
        ∧ s2 = s.
Proof.
  intros Hrange Hv H. unfold WithNaN.insert_transaction in H.
  apply bind_OK in H as (ty & _ & H).
  apply bind_OK in H as (m & Hm & H).
  assert (∃ z, m = WithNaN.Num z) as [z ->].
  { destruct (WithNaN.v_amount v) as [[z| |]|]; simpl in Hm; try done.
    unfold WithNaN.numeric_15_2 in Hm. case_decide; [|done].
    injection Hm as <-. eauto. }
  destruct (WithNaN.transactions s !! id) eqn:Hid; [done |].
  cbn zeta in H. apply bind_OK in H as (? & Href & H).
  apply bind_OK in H as (? & _ & H).
  apply bind_OK in H as (accs & Htg & H). injection H as <-.
  unfold references in Href. simpl in Href.
  destruct (WithNaN.accounts s !! WithNaN.v_account_id v) as [r|] eqn:Hr;
    [|done].
  unfold WithNaN.update_account_balance, WithNaN.update_accounts in Htg.
  simpl in Htg. rewrite Hr, case_type_signed_numeric in Htg. simpl in Htg.
  apply bind_OK in Htg as (b' & Hb' & Htg). injection Htg as <-.
  assert (b' = WithNaN.add (WithNaN.current_balance r)
                 (WithNaN.signed ty (WithNaN.Num z))) as ->.
  { destruct (WithNaN.add _ _) as [n|]; simpl in Hb'.
    - case_decide; [|done]. by injection Hb'.
    - by injection Hb'. }
  assert (WithNaN.delete_transaction id
            {| WithNaN.accounts :=
                 <[WithNaN.v_account_id v :=
                     WithNaN.set_current_balance
                       (WithNaN.add (WithNaN.current_balance r)
                          (WithNaN.signed ty (WithNaN.Num z))) r]>
                   (WithNaN.accounts s);
               WithNaN.categories := WithNaN.categories s;
               WithNaN.transactions :=
                 <[id := WithNaN.row v ty (WithNaN.Num z)]>
                   (WithNaN.transactions s) |} = OK s) as Hdel.
  { unfold WithNaN.delete_transaction. simpl. rewrite lookup_insert_eq.
    unfold WithNaN.update_account_balance, WithNaN.update_accounts.
    simpl. rewrite lookup_insert_eq, case_type_signed_numeric. simpl.
    rewrite add_sub_number.
    assert (WithNaN.numeric_15_2 (WithNaN.current_balance r)
            = OK (WithNaN.current_balance r)) as ->.
    { pose proof (Hrange _ _ Hr) as Hb. simpl in Hb.
      destruct (WithNaN.current_balance r) as [b|]; simpl; [|done].
      by rewrite decide_True. }
    simpl. f_equal. destruct s as [accs cats txs]. simpl in *. f_equal.
    - rewrite insert_insert_eq, set_current_balance_twice,
        set_current_balance_same by done.
      by apply insert_id.
    - by apply delete_insert_id. }
  exists s. by repeat split.
Qed.

Lemma delete_inverts_create_witness :
  ∃ s2, WithNaN.delete_transaction NaNCase.t1 NaNCase.n1 = OK s2
        ∧ (∀ a, WithNaN.balance_of a s2 = WithNaN.balance_of a NaNCase.s0)
        ∧ s2 = NaNCase.s0.
Proof.
  apply (delete_inverts_create NaNCase.s0 NaNCase.t1
           (NaNCase.values NaNCase.A "income" (WithNaN.Decimal 5000))
           NaNCase.n1).
  - apply (bool_decide_unpack _). vm_compute. exact I.
  - simpl. discriminate.
  - vm_compute. reflexivity.
Defined.

(** * With [NaN]: update after creation *)

Lemma numeric_15_2_value v w :
  WithNaN.numeric_15_2 v = OK w → w = v.
Proof.
  destruct v as [z|]; simpl; [|by intros [= <-]].
  case_decide; [|done]. by intros [= <-].
Qed.

(** An income of amount ['NaN'] updated to an expense of [20.00] leaves
    the balance at [NaN], where the expense created at once gives
    [80.00]. *)
Example update_after_create_of_NaN :
  is_OK NaNCase.r1 ∧ is_OK NaNCase.u2 ∧ is_OK NaNCase.direct
  ∧ WithNaN.balance_of NaNCase.A (WithNaN.commit NaNCase.s1 NaNCase.u2)
    = Some WithNaN.NaN
  ∧ WithNaN.balance_of NaNCase.A (WithNaN.commit NaNCase.s0 NaNCase.direct)
    = Some (WithNaN.Num 8000).
Proof.
  split; [vm_compute; exact I |].
  split; [vm_compute; exact I |].
  split; [vm_compute; exact I |].
  split; vm_compute; reflexivity.
Qed.

(** X14. Creating a transaction whose amount is not ['NaN'] and then
    updating it gives exactly the database that creating it with the
    updated values gives: whenever the creation and the update both
    succeed, so does the direct creation, with the same result. *)
Theorem insert_then_update id v1 v2 (s s1 s2 : WithNaN.database) :
  WithNaN.v_amount v1 ≠ Some WithNaN.Not_a_number →
  WithNaN.insert_transaction id v1 s = OK s1 →
  WithNaN.update_transaction id v2 s1 = OK s2 →
  WithNaN.insert_transaction id v2 s = OK s2.
Proof.
  intros Hv H1 H2. unfold WithNaN.insert_transaction in H1.
  apply bind_OK in H1 as (ty1 & _ & H1).
  apply bind_OK in H1 as (m1 & Hm1 & H1).
  assert (∃ z1, m1 = WithNaN.Num z1) as [z1 ->].
  { destruct (WithNaN.v_amount v1) as [[z| |]|]; simpl in Hm1; try done.
    unfold WithNaN.numeric_15_2 in Hm1. case_decide; [|done].
    injection Hm1 as <-. eauto. }
  destruct (WithNaN.transactions s !! id) eqn:Hid; [done |].
  cbn zeta in H1. apply bind_OK in H1 as (? & Href1 & H1).
  apply bind_OK in H1 as (? & Hcat1 & H1).
  apply bind_OK in H1 as (accs1 & Htg1 & H1). injection H1 as <-.
  unfold references in Href1. simpl in Href1, Hcat1.
  destruct (WithNaN.accounts s !! WithNaN.v_account_id v1) as [r1|] eqn:Hr1;
    [|done].
  unfold WithNaN.update_account_balance, WithNaN.update_accounts in Htg1.
  simpl in Htg1. rewrite Hr1, case_type_signed_numeric in Htg1.
  simpl in Htg1.
  apply bind_OK in Htg1 as (b1 & Hb1 & Htg1). injection Htg1 as <-.
  apply numeric_15_2_value in Hb1 as ->.
  unfold WithNaN.update_transaction in H2. simpl in H2.
  rewrite lookup_insert_eq in H2.
  apply bind_OK in H2 as (ty2 & Hty2 & H2).
  apply bind_OK in H2 as (m2 & Hm2 & H2).
  cbn zeta in H2. apply bind_OK in H2 as (? & Href2 & H2).
  apply bind_OK in H2 as (? & Hcat2 & H2).
  apply bind_OK in H2 as (accs2 & Htg2 & H2). injection H2 as <-.
  simpl in Href2, Hcat2.
  unfold WithNaN.update_account_balance in Htg2.
  apply bind_OK in Htg2 as (accs' & Hrev & Happ).
  unfold WithNaN.update_accounts in Hrev. simpl in Hrev.
  rewrite lookup_insert_eq, case_type_signed_numeric in Hrev.
  simpl in Hrev. rewrite add_sub_number in Hrev.
  apply bind_OK in Hrev as (b & Hb & Hrev).
  apply numeric_15_2_value in Hb as ->.
  rewrite insert_insert_eq, set_current_balance_twice,
    set_current_balance_same, insert_id in Hrev by done.
  injection Hrev as <-.
  assert (is_Some (WithNaN.accounts s !! WithNaN.v_account_id v2))
    as [r2 Hr2].
  { destruct (decide (WithNaN.v_account_id v2 = WithNaN.v_account_id v1))
      as [->|Hne]; [eauto |].
    unfold references in Href2. rewrite lookup_insert_ne in Href2 by done.
    destruct (WithNaN.accounts s !! WithNaN.v_account_id v2); [eauto |].
    done. }
  assert (references_opt (WithNaN.categories s) (WithNaN.v_category_id v2)
          = OK ()) as Hcat.
  { revert Hcat2.
    destruct (decide (WithNaN.v_category_id v2 = WithNaN.v_category_id v1))
      as [Hd|Hd]; intros Hcat2.
    - rewrite Hd, Hcat1. by destruct x0.
    - rewrite Hcat2. by destruct x2. }
  unfold WithNaN.insert_transaction. rewrite Hty2, Hm2, Hid. simpl.
  unfold references. rewrite Hr2, Hcat. simpl.
  unfold WithNaN.update_account_balance. simpl in Happ. simpl.
  rewrite Happ. simpl. by rewrite insert_insert_eq.
Qed.

Lemma insert_then_update_witness :
  let v1 := NaNCase.values NaNCase.A "income" (WithNaN.Decimal 5000) in
  let v2 := NaNCase.values NaNCase.A "expense" (WithNaN.Decimal 2000) in
  let s2 := WithNaN.commit NaNCase.n1
              (WithNaN.update_transaction NaNCase.t1 v2 NaNCase.n1) in
  WithNaN.balance_of NaNCase.A NaNCase.s0 = Some (WithNaN.Num 10000)
  ∧ WithNaN.balance_of NaNCase.A s2 = Some (WithNaN.Num 8000)
  ∧ WithNaN.insert_transaction NaNCase.t1 v2 NaNCase.s0 = OK s2.
Proof.
  intros v1 v2 s2. split; [vm_compute; reflexivity |].
  split; [vm_compute; reflexivity |].
  apply (insert_then_update NaNCase.t1 v1 v2 NaNCase.s0 NaNCase.n1 s2).
  - simpl. discriminate.
  - vm_compute. reflexivity.
  - vm_compute. reflexivity.
Defined.

(** * With [NaN]: databases reachable from the empty one *)

Lemma embed_empty_database : embed empty_database = WithNaN.empty_database.
Proof.
  unfold embed, WithNaN.empty_database. simpl. by rewrite !fmap_empty.
Qed.

(** X15. Every database the application can reach from the empty one,
    by any sequence of its statements (creating and deleting accounts and
    categories, creating, updating and deleting transactions, each
    committed or rolled back) none of which supplies ['NaN'] as the
    amount of a transaction, holds no [NaN], satisfies the balance
    invariant and both foreign keys, and holds only values that fit its
    decimal columns. *)
Theorem reachable_well_formed ops :
  Forall WithNaN.amounts_are_numbers ops →
  let s := WithNaN.run_all ops WithNaN.empty_database in
  WithNaN.stores_numbers s
  ∧ WithNaN.balance_invariant s
  ∧ WithNaN.referential_integrity s
  ∧ WithNaN.columns_in_range s.
Proof.
  intros Hops s. subst s.
  rewrite <- embed_empty_database, (run_all_embed _ _ Hops).
  destruct (run_all_well_formed (numbers_of_db_operation <$> ops)
              empty_database well_formed_empty) as (Hinv & Hri & Hcol).
  split; [apply stores_numbers_embed |].
  split; [by apply balance_invariant_embed |].
  split; [by apply referential_integrity_embed |].
  by apply columns_in_range_embed.
Qed.

Lemma reachable_well_formed_witness :
  let s := WithNaN.run_all
             [WithNaN.AddAccount NaNCase.A NaNCase.user "A" "USD"
                (WithNaN.Parsed 10000) 0;
              WithNaN.OnTransaction
                (WithNaN.Create NaNCase.t1
                   (NaNCase.values NaNCase.A "income"
                      (WithNaN.Decimal 5000)))]
             WithNaN.empty_database in
  WithNaN.balance_of NaNCase.A s = Some (WithNaN.Num 15000)
  ∧ WithNaN.stores_numbers s
  ∧ WithNaN.balance_invariant s
  ∧ WithNaN.referential_integrity s
  ∧ WithNaN.columns_in_range s.
Proof.
  intros s. split; [vm_compute; reflexivity |].
  apply (reachable_well_formed
           [WithNaN.AddAccount NaNCase.A NaNCase.user "A" "USD"
              (WithNaN.Parsed 10000) 0;
            WithNaN.OnTransaction
              (WithNaN.Create NaNCase.t1
                 (NaNCase.values NaNCase.A "income"
                    (WithNaN.Decimal 5000)))]).
  repeat constructor. simpl. discriminate.
Defined.
